(** * Wordle front end: the game board components, the API client and the
  guess evaluator, embedded in Rocq.

  Sources embedded here
  - [src/unnamed/part_000]: the [GameBoard] component that talks to the
    game server and shows the statistics dialog ([Module GameBoard]);
  - [src/frontend/src/app/components/GameStats.tsx], second component:
    the stand-alone board that keeps the whole grid locally
    ([Module LocalBoard], its handlers one after the other;
    [Module LocalAsync], with its checks on their way);
  - [src/unnamed/part_001] and [src/frontend/src/app/services/api.ts]:
    the two versions of [getStats] ([Module Api]);
  - the keyboard-status merge shared by [loadGameState] and
    [handleSubmit] ([Module Keyboard]);
  - the win-percentage expression of the statistics views
    ([Module Stats]).

  The guess evaluator and the session state machine run on the game
  server, whose code is not part of the sources; they are modelled from
  the specification ([Module Evaluator], [Module Session]). *)

From Stdlib Require Import ZArith Lia Bool Ascii String.
From Stdlib Require Import Floats.
From stdpp Require Import base option list strings gmap.

Local Open Scope string_scope.
Local Open Scope list_scope.
Local Open Scope nat_scope.

(** The three values of [gameStatus] and of the server's [game_status]. *)
Inductive GameStatus := Playing | Won | Lost.

#[global] Instance GameStatus_eq_dec : EqDecision GameStatus.
Proof. solve_decision. Defined.

(** What a [fetch] followed by [response.json()] comes to: the request
    fails, the response is not [ok], or it carries a body. *)
Inductive Fetch (A : Type) :=
  | NetworkError
  | HttpError
  | Body (data : A).
Arguments NetworkError {A}.
Arguments HttpError {A}.
Arguments Body {A} data.

(** An [async] function either throws or returns. *)
Inductive Outcome (A : Type) :=
  | Throws
  | Returns (value : A).
Arguments Throws {A}.
Arguments Returns {A} value.

(** ** JavaScript values and array operations used by the components *)
Module JS.

(** A value of type [string | undefined]: [None] is [undefined]. *)
Definition truthy (v : option string) : bool :=
  match v with
  | Some s => negb (String.eqb s "")
  | None => false
  end.

(** [v === s] for a [string | undefined] value [v]. *)
Definition seq (v : option string) (s : string) : bool :=
  match v with
  | Some s' => String.eqb s' s
  | None => false
  end.

(** [word.split("")]: the one-character strings of [word]. *)
Fixpoint split (word : string) : list string :=
  match word with
  | EmptyString => []
  | String c rest => String c EmptyString :: split rest
  end.

(** [cells.join("")]; a hole or [undefined] prints as the empty string. *)
Fixpoint join (cells : list (option string)) : string :=
  match cells with
  | [] => ""
  | Some s :: rest => (s ++ join rest)%string
  | None :: rest => join rest
  end.

(** [Array(n).fill(v)]. *)
Definition fill {A} (n : nat) (v : A) : list (option A) :=
  replicate n (Some v).

(** [a.findIndex(p)], counted from [i]; [-1] when no element passes. *)
Fixpoint findIndex_from {A} (p : option A → bool) (a : list (option A))
    (i : Z) : Z :=
  match a with
  | [] => (-1)%Z
  | x :: rest => if p x then i else findIndex_from p rest (i + 1)%Z
  end.

Definition findIndex {A} (p : option A → bool) (a : list (option A)) : Z :=
  findIndex_from p a 0%Z.

(** [a[i] = v] on a copy of [a], for an index [i >= 0]: inside the array
    the element is replaced, past its end the array grows and the cells
    in between are holes. *)
Definition set {A} (a : list (option A)) (i : nat) (v : A)
    : list (option A) :=
  if decide (i < length a)
  then <[i := Some v]> a
  else a ++ replicate (i - length a) None ++ [Some v].

(** [a[i]] for an array [a]: [undefined] past the end. *)
Definition get {A} (a : list A) (i : nat) : option A := a !! i.

Definition is_lower (c : ascii) : bool :=
  let n := nat_of_ascii c in (97 <=? n)%nat && (n <=? 122)%nat.

Definition is_upper (c : ascii) : bool :=
  let n := nat_of_ascii c in (65 <=? n)%nat && (n <=? 90)%nat.

Definition upper_ascii (c : ascii) : ascii :=
  if is_lower c then ascii_of_nat (nat_of_ascii c - 32) else c.

(** [s.toUpperCase()] on ASCII text. *)
Fixpoint toUpperCase (s : string) : string :=
  match s with
  | EmptyString => EmptyString
  | String c rest => String (upper_ascii c) (toUpperCase rest)
  end.

(** [/^[a-zA-Z]$/.test(key)]: exactly one ASCII letter. *)
Definition is_letter_key (key : string) : bool :=
  match key with
  | String c EmptyString => is_lower c || is_upper c
  | _ => false
  end.

End JS.

(** ** The keyboard-status merge
  ([loadGameState], part_000 lines 121-135 and GameStats.tsx lines
  480-496; [handleSubmit], GameStats.tsx lines 224-237) *)
Module Keyboard.

(** [keyboardStatus]: an object from key to status.  A property may hold
    [undefined] (when an evaluation is shorter than its word), so the
    stored value is a [string | undefined]. *)
Abbreviation status_map := (gmap string (option string)).

(** [keyboardStatus[letter]]. *)
Definition read (ks : status_map) (letter : string) : option string :=
  match ks !! letter with
  | Some v => v
  | None => None
  end.

(** The condition of the [if] that guards the assignment. *)
Definition upgrades (cur status : option string) : bool :=
  negb (JS.truthy cur)
  || (JS.seq cur "absent" && negb (JS.seq status "absent"))
  || (JS.seq cur "present" && JS.seq status "correct").

(** The body of the inner [forEach]. *)
Definition mergeLetter (ks : status_map) (letter : string)
    (status : option string) : status_map :=
  if upgrades (read ks letter) status then <[letter := status]> ks else ks.

(** [cells.forEach((letter, index) => ... evaluation[index] ...)], from
    position [index] on; [forEach] passes over the holes of an array. *)
Fixpoint mergeWord (ks : status_map) (cells : list (option string))
    (evaluation : list string) (index : nat) : status_map :=
  match cells with
  | [] => ks
  | None :: rest => mergeWord ks rest evaluation (S index)
  | Some letter :: rest =>
      mergeWord (mergeLetter ks letter (JS.get evaluation index))
                rest evaluation (S index)
  end.

(** One attempt of [loadGameState]: [evaluation] is
    [data.evaluations[attemptIndex]], [undefined] past the end of
    [data.evaluations]; indexing [undefined] throws a [TypeError] as soon
    as the word has a letter ([None] is the exception). *)
Definition mergeAttempt (ks : status_map) (word : string)
    (evaluation : option (list string)) : option status_map :=
  match evaluation with
  | Some e => Some (mergeWord ks (Some <$> JS.split word) e 0)
  | None => match JS.split word with
            | [] => Some ks
            | _ :: _ => None
            end
  end.

(** [data.attempts.forEach((word, attemptIndex) => ...)], from attempt
    [attemptIndex] on. *)
Fixpoint mergeAll (ks : status_map) (attempts : list string)
    (evaluations : list (list string)) (attemptIndex : nat)
    : option status_map :=
  match attempts with
  | [] => Some ks
  | word :: rest =>
      match mergeAttempt ks word (JS.get evaluations attemptIndex) with
      | Some ks' => mergeAll ks' rest evaluations (S attemptIndex)
      | None => None
      end
  end.

(** *** Notions used to state the properties of the merge *)

(** The stored value of one key after one observation of that key. *)
Definition step (raw : option (option string)) (status : option string)
    : option (option string) :=
  if upgrades (default None raw) status then Some status else raw.

(** The statuses that [mergeWord] offers to key [l], in order. *)
Fixpoint statuses (l : string) (cells : list (option string))
    (e : list string) (index : nat) : list (option string) :=
  match cells with
  | [] => []
  | None :: rest => statuses l rest e (S index)
  | Some l' :: rest =>
      if decide (l' = l)
      then JS.get e index :: statuses l rest e (S index)
      else statuses l rest e (S index)
  end.

(** The statuses that [mergeAll] offers to key [l], in order. *)
Fixpoint all_statuses (l : string) (attempts : list string)
    (evaluations : list (list string)) (index : nat)
    : list (option string) :=
  match attempts with
  | [] => []
  | w :: rest =>
      match JS.get evaluations index with
      | Some e => statuses l (Some <$> JS.split w) e 0
      | None => []
      end ++ all_statuses l rest evaluations (S index)
  end.

(** How a stored value reacts to a new status: it takes any status, it
    only gives way to "correct", or it never changes. *)
Inductive Class := Low | Mid | Stuck.

Definition class (raw : option (option string)) : Class :=
  let cur := default None raw in
  if negb (JS.truthy cur) || JS.seq cur "absent" then Low
  else if JS.seq cur "present" then Mid
  else Stuck.

(** The three verdicts, as the strings the server sends. *)
Definition verdict (s : string) : Prop :=
  s = "correct" ∨ s = "present" ∨ s = "absent".

(** Correct = 2 > Present = 1 > Absent = 0. *)
Definition rank (s : string) : nat :=
  if String.eqb s "correct" then 2
  else if String.eqb s "present" then 1
  else 0.

(** [v] is the best of the verdicts in [pool]: one of them, of maximal
    rank; nothing when the pool is empty. *)
Definition best (v : option string) (pool : list string) : Prop :=
  match v with
  | None => pool = []
  | Some s => s ∈ pool ∧ ∀ s', s' ∈ pool → rank s' ≤ rank s
  end.

(** The verdicts that [letter] receives in one attempt: those at the
    positions of the cells that hold it. *)
Fixpoint received_in (letter : string) (cells : list (option string))
    (evaluation : list string) : list string :=
  match cells, evaluation with
  | c :: cells', s :: evaluation' =>
      if decide (c = Some letter)
      then s :: received_in letter cells' evaluation'
      else received_in letter cells' evaluation'
  | _, _ => []
  end.

(** The verdicts that [letter] receives across all attempts. *)
Fixpoint received (letter : string) (attempts : list string)
    (evaluations : list (list string)) : list string :=
  match attempts, evaluations with
  | w :: attempts', e :: evaluations' =>
      received_in letter (Some <$> JS.split w) e
      ++ received letter attempts' evaluations'
  | _, _ => []
  end.

(** Every attempt comes with an evaluation of its length, made of
    verdicts. *)
Definition aligned (attempts : list string)
    (evaluations : list (list string)) : Prop :=
  Forall2 (λ w e, String.length w = length e ∧ Forall verdict e)
          attempts evaluations.

(** Every key of the keyboard status holds a verdict. *)
Definition valid_keyboard (ks : status_map) : Prop :=
  ∀ l v, ks !! l = Some v → ∃ s, v = Some s ∧ verdict s.

(** The stored value [raw] of a key is a verdict, the best of [pool]; no
    key when the pool is empty. *)
Definition raw_best (raw : option (option string)) (pool : list string)
    : Prop :=
  match raw with
  | None => pool = []
  | Some None => False
  | Some (Some v) => verdict v ∧ best (Some v) pool
  end.

(** What the keyboard status already holds for [letter]. *)
Definition known (ks : status_map) (letter : string) : list string :=
  match read ks letter with
  | Some s => [s]
  | None => []
  end.

End Keyboard.

(** ** The statistics record and the win percentage
    (GameStats.tsx lines 10-18 and 82-85; part_000 lines 18-26 and
    394-401) *)
Module Stats.

(** [StatsData]; its numbers are JavaScript numbers, IEEE 754 doubles. *)
Record StatsData := {
  played : float;
  won : float;
  current_streak : float;
  max_streak : float;
  guess_distribution : list (string * float)
}.

(** An integer as a JavaScript number (exact up to 2^53). *)
Definition of_Z (n : Z) : float :=
  if (n <? 0)%Z
  then (- of_uint63 (Uint63.of_Z (- n)))%float
  else of_uint63 (Uint63.of_Z n).

(** [Math.round(x)]: the integer nearest to [x], a tie going to the one
    closer to +infinity; integers, infinities and NaN are returned as they
    are, and a result of zero keeps the sign of [x]. *)
Definition Math_round (x : float) : float :=
  match Prim2SF x with
  | S754_finite s m e =>
      if (0 <=? e)%Z then x
      else
        let twice := ((if s then Z.neg m else Z.pos m) * 2 + 2 ^ (- e))%Z in
        let n := (twice / 2 ^ (- e + 1))%Z in
        if (n =? 0)%Z then (if s then neg_zero else zero) else of_Z n
  | _ => x
  end.

(** A division that reports a zero divisor instead of performing it. *)
Definition checked_div (x y : float) : option float :=
  if (y =? 0)%float then None else Some (x / y)%float.

(** [stats.played > 0 ? Math.round((stats.won / stats.played) * 100) : 0],
    with the division checked: [None] would be a division by zero. *)
Definition winPercentage_checked (stats : StatsData) : option float :=
  if (0 <? played stats)%float
  then q ← checked_div (won stats) (played stats);
       Some (Math_round (q * 100)%float)
  else Some 0%float.

(** [stats.played > 0 ? Math.round((stats.won / stats.played) * 100) : 0]. *)
Definition winPercentage (stats : StatsData) : float :=
  if (0 <? played stats)%float
  then Math_round ((won stats / played stats) * 100)%float
  else 0%float.

(** The percentage of [won] wins in [played] games in exact arithmetic:
    [100 * won / played] rounded to the nearest integer ([mode] says where
    a tie goes: [true] up, [false] to the even neighbour). *)
Definition exact_percentage (mode : bool) (won played : Z) : Z :=
  let q := (200 * won / (2 * played))%Z in
  let twice_rest := (200 * won - q * (2 * played))%Z in
  if (twice_rest <? played)%Z then q
  else if (played <? twice_rest)%Z then (q + 1)%Z
  else if mode then (q + 1)%Z
  else if Z.even q then q else (q + 1)%Z.

End Stats.

(** ** The API client: [getStats]
    (part_001 lines 111-177; api.ts lines 107-127) *)
Module Api.

(** [StatsResponse]; [stats] is missing from a failure response. *)
Record StatsResponse := {
  success : bool;
  stats : option Stats.StatsData;
  error : option string
}.

(** What reading the Firestore document comes to: [getDoc] throws, the
    document does not exist, or it holds the statistics. *)
Inductive FirestoreRead :=
  | ReadThrows
  | NoDocument
  | Document (data : Stats.StatsData).

(** The statistics of the [catch] branch of part_001. *)
Definition defaultStats : Stats.StatsData :=
  {| Stats.played := 0; Stats.won := 0;
     Stats.current_streak := 0; Stats.max_streak := 0;
     Stats.guess_distribution :=
       [("1", 0%float); ("2", 0%float); ("3", 0%float);
        ("4", 0%float); ("5", 0%float); ("6", 0%float)] |}.

(** [getStats] of part_001: Firestore first, then the HTTP API; the write
    back to Firestore has its own [try] and changes nothing of the result.
    The outer [catch] returns a response. *)
Definition getStats (firestore : FirestoreRead)
    (api : Fetch StatsResponse) : Outcome StatsResponse :=
  match firestore with
  | Document data =>
      Returns {| success := true; stats := Some data; error := None |}
  | ReadThrows | NoDocument =>
      match api with
      | Body data => Returns data
      | NetworkError | HttpError =>
          Returns {| success := true; stats := Some defaultStats;
                     error := None |}
      end
  end.

(** [getStats] of api.ts: the HTTP API only; the [catch] rethrows. *)
Definition getStats_http (api : Fetch StatsResponse)
    : Outcome StatsResponse :=
  match api with
  | Body data => Returns data
  | NetworkError | HttpError => Throws
  end.

End Api.

(** ** The stand-alone board
    (GameStats.tsx lines 124-377: [checkWord], [handleKeyPress],
    [handleBackspace], [handleSubmit])

    A handler is a function from the state of the render it belongs to,
    and from the server's answer to [/api/check], to the state once all
    its updates are applied. *)
Module LocalBoard.

Record State := {
  attempts : list (list (option string));
  currentAttempt : nat;
  currentPosition : nat;
  gameStatus : GameStatus;
  evaluation : list (option (list string));
  keyboardStatus : Keyboard.status_map
}.

(** The state of the first render:
    [Array(maxAttempts).fill([]).map(() => Array(wordLength).fill(""))]
    for both grids. *)
Definition initial (maxAttempts wordLength : nat) : State :=
  {| attempts := replicate maxAttempts (JS.fill wordLength "");
     currentAttempt := 0;
     currentPosition := 0;
     gameStatus := Playing;
     evaluation := replicate maxAttempts (Some (replicate wordLength ""));
     keyboardStatus := ∅ |}.

(** The body of the server's answer to [/api/check]. *)
Record CheckResult := {
  correct : bool;
  result_evaluation : list string
}.

(** The evaluation of the fallback of [checkWord]:
    [Array(wordLength).fill("absent").map((_, i) =>
       i === 0 ? "correct" : i === 1 ? "present" : "absent")]. *)
Definition mockEvaluation (wordLength : nat) : list string :=
  imap (λ i _, match i with
               | 0 => "correct"
               | 1 => "present"
               | _ => "absent"
               end) (replicate wordLength "absent").

(** [checkWord]: the server's answer, or the fallback when the request
    fails. *)
Definition checkWord (wordLength : nat) (reply : Fetch CheckResult)
    : CheckResult :=
  match reply with
  | Body data => data
  | NetworkError | HttpError =>
      {| correct := false; result_evaluation := mockEvaluation wordLength |}
  end.

(** [attempts[currentAttempt]]: the row being typed, [None] when there is
    no such row (using it then throws and the handler ends there). *)
Definition currentRow (st : State) : option (list (option string)) :=
  JS.get (attempts st) (currentAttempt st).

(** [handleSubmit]. *)
Definition handleSubmit (maxAttempts wordLength : nat) (st : State)
    (reply : Fetch CheckResult) : State :=
  if negb (currentPosition st =? wordLength)%nat then st
  else
    match currentRow st with
    | None => st
    | Some row =>
        let result := checkWord wordLength reply in
        let newEvaluation :=
          JS.set (evaluation st) (currentAttempt st)
                 (result_evaluation result) in
        let newKeyboardStatus :=
          Keyboard.mergeWord (keyboardStatus st) row
                             (result_evaluation result) 0 in
        if correct result then
          {| attempts := attempts st;
             currentAttempt := currentAttempt st;
             currentPosition := currentPosition st;
             gameStatus := Won;
             evaluation := newEvaluation;
             keyboardStatus := newKeyboardStatus |}
        else if (Z.of_nat (currentAttempt st) =? Z.of_nat maxAttempts - 1)%Z
        then
          {| attempts := attempts st;
             currentAttempt := currentAttempt st;
             currentPosition := currentPosition st;
             gameStatus := Lost;
             evaluation := newEvaluation;
             keyboardStatus := newKeyboardStatus |}
        else
          {| attempts := attempts st;
             currentAttempt := currentAttempt st + 1;
             currentPosition := 0;
             gameStatus := gameStatus st;
             evaluation := newEvaluation;
             keyboardStatus := newKeyboardStatus |}
    end.

(** [newAttempts[currentAttempt][position] = cell] on the copy of
    [attempts]: the cell is written into [row], the row that was read at
    [currentAttempt], which stays where it is in the grid. *)
Definition writeCell (st : State) (row : list (option string))
    (position : nat) (cell : string) : list (list (option string)) :=
  <[currentAttempt st := JS.set row position cell]> (attempts st).

(** [handleBackspace]. *)
Definition handleBackspace (st : State) : State :=
  if (0 <? currentPosition st)%nat then
    match currentRow st with
    | None => st
    | Some row =>
        {| attempts := writeCell st row (currentPosition st - 1) "";
           currentAttempt := currentAttempt st;
           currentPosition := currentPosition st - 1;
           gameStatus := gameStatus st;
           evaluation := evaluation st;
           keyboardStatus := keyboardStatus st |}
    end
  else st.

(** [handleKeyPress]; [reply] is what the server answers should the key
    start a submission. *)
Definition handleKeyPress (maxAttempts wordLength : nat) (st : State)
    (key : string) (reply : Fetch CheckResult) : State :=
  if negb (bool_decide (gameStatus st = Playing)) then st
  else if String.eqb key "Enter" then
    handleSubmit maxAttempts wordLength st reply
  else if String.eqb key "Backspace" then handleBackspace st
  else if JS.is_letter_key key && (currentPosition st <? wordLength)%nat then
    match currentRow st with
    | None => st
    | Some row =>
        {| attempts :=
             writeCell st row (currentPosition st) (JS.toUpperCase key);
           currentAttempt := currentAttempt st;
           currentPosition := currentPosition st + 1;
           gameStatus := gameStatus st;
           evaluation := evaluation st;
           keyboardStatus := keyboardStatus st |}
    end
  else st.



(** *** Notions used to state the properties of the board *)







End LocalBoard.

(** ** The board that plays against the game server
    (part_000: [startNewGame], [loadGameState], [submitGuess],
    [fetchStats], [handleKeyPress] and the status message; the third
    component of GameStats.tsx is the same code without the statistics)

    A handler is a function from the state of the render it belongs to,
    and from what the outside answers while it runs ([Replies]), to the
    state once all its updates are applied and the requests it sent; an
    [async] handler is run to its end, so two handlers never interleave. *)
Module GameBoard.

(** The body of the answer to [POST /api/new-game]. *)
Record NewGameData := { game_id : string }.

(** The body of the answer to [GET /api/game/<id>] ([GameResponse]). *)
Record GameData := {
  game_error : option string;
  game_attempts : list string;
  game_evaluations : list (list string);
  game_status : GameStatus;
  game_word : option string
}.

(** The body of the answer to [POST /api/guess] ([GuessResponse]). *)
Record GuessData := {
  guess_error : option string;
  guess_status : GameStatus;
  guess_word : option string
}.

(** The requests a handler sends, in order. *)
Inductive Request :=
  | NewGameRequest (word_length max_attempts : nat)
  | GameRequest (id : string)
  | GuessRequest (id word : string)
  | StatsRequest.

#[global] Instance Request_eq_dec : EqDecision Request.
Proof. solve_decision. Defined.

(** What the outside answers while one handler runs. *)
Record Replies := {
  onNewGame : Fetch NewGameData;
  onGame : Fetch GameData;
  onGuess : Fetch GuessData;
  onStats : Outcome Api.StatsResponse
}.

Record State := {
  gameId : option string;
  attempts : list (list string);
  evaluations : list (list string);
  currentAttempt : list (option string);
  gameStatus : GameStatus;
  keyboardStatus : Keyboard.status_map;
  isLoading : bool;
  error : option string;
  solution : option string;
  stats : option Stats.StatsData;
  statsLoading : bool
}.

(** The state of the first render. *)
Definition initial (wordLength : nat) : State :=
  {| gameId := None; attempts := []; evaluations := [];
     currentAttempt := JS.fill wordLength "";
     gameStatus := Playing; keyboardStatus := ∅;
     isLoading := false; error := None; solution := None;
     stats := None; statsLoading := false |}.

Definition set_error (st : State) (e : option string) : State :=
  {| gameId := gameId st; attempts := attempts st;
     evaluations := evaluations st; currentAttempt := currentAttempt st;
     gameStatus := gameStatus st; keyboardStatus := keyboardStatus st;
     isLoading := isLoading st; error := e; solution := solution st;
     stats := stats st; statsLoading := statsLoading st |}.

Definition set_isLoading (st : State) (b : bool) : State :=
  {| gameId := gameId st; attempts := attempts st;
     evaluations := evaluations st; currentAttempt := currentAttempt st;
     gameStatus := gameStatus st; keyboardStatus := keyboardStatus st;
     isLoading := b; error := error st; solution := solution st;
     stats := stats st; statsLoading := statsLoading st |}.

Definition set_currentAttempt (st : State) (a : list (option string))
    : State :=
  {| gameId := gameId st; attempts := attempts st;
     evaluations := evaluations st; currentAttempt := a;
     gameStatus := gameStatus st; keyboardStatus := keyboardStatus st;
     isLoading := isLoading st; error := error st; solution := solution st;
     stats := stats st; statsLoading := statsLoading st |}.

Definition set_keyboardStatus (st : State) (ks : Keyboard.status_map)
    : State :=
  {| gameId := gameId st; attempts := attempts st;
     evaluations := evaluations st; currentAttempt := currentAttempt st;
     gameStatus := gameStatus st; keyboardStatus := ks;
     isLoading := isLoading st; error := error st; solution := solution st;
     stats := stats st; statsLoading := statsLoading st |}.

Definition set_stats (st : State) (s : option Stats.StatsData) : State :=
  {| gameId := gameId st; attempts := attempts st;
     evaluations := evaluations st; currentAttempt := currentAttempt st;
     gameStatus := gameStatus st; keyboardStatus := keyboardStatus st;
     isLoading := isLoading st; error := error st; solution := solution st;
     stats := s; statsLoading := statsLoading st |}.

(** [setAttempts], [setEvaluations], [setGameStatus], [setSolution] of
    [loadGameState], in one step. *)
Definition set_game (st : State) (data : GameData) : State :=
  {| gameId := gameId st;
     attempts := JS.split <$> game_attempts data;
     evaluations := game_evaluations data;
     currentAttempt := currentAttempt st;
     gameStatus := game_status data;
     keyboardStatus := keyboardStatus st;
     isLoading := isLoading st; error := error st;
     solution := game_word data;
     stats := stats st; statsLoading := statsLoading st |}.

(** [startNewGame]. *)
Definition startNewGame (maxAttempts wordLength : nat) (st : State)
    (net : Replies) : State * list Request :=
  let st1 := set_error (set_isLoading st true) None in
  let st2 :=
    match onNewGame net with
    | Body data =>
        {| gameId := Some (game_id data); attempts := []; evaluations := [];
           currentAttempt := JS.fill wordLength "";
           gameStatus := Playing; keyboardStatus := ∅;
           isLoading := isLoading st1; error := error st1; solution := None;
           stats := stats st1; statsLoading := statsLoading st1 |}
    | NetworkError | HttpError =>
        set_error st1 (Some "Failed to start new game. Please try again.")
    end in
  (set_isLoading st2 false, [NewGameRequest wordLength maxAttempts]).

(** [loadGameState]; the keyboard status is folded from the
    [keyboardStatus] of the render the function belongs to. *)
Definition loadGameState (st : State) (id : string) (net : Replies)
    : State * list Request :=
  let failed := Some "Failed to load game. Please try again." in
  let st1 := set_error (set_isLoading st true) None in
  let st2 :=
    match onGame net with
    | Body data =>
        if JS.truthy (game_error data) then set_error st1 failed
        else
          let st' := set_game st1 data in
          match Keyboard.mergeAll (keyboardStatus st) (game_attempts data)
                                  (game_evaluations data) 0 with
          | Some newKeyboardStatus => set_keyboardStatus st' newKeyboardStatus
          | None => set_error st' failed
          end
    | NetworkError | HttpError => set_error st1 failed
    end in
  (set_isLoading st2 false, [GameRequest id]).

(** [fetchStats]. *)
Definition fetchStats (st : State) (net : Replies) : State * list Request :=
  let st1 :=
    match onStats net with
    | Returns response =>
        if Api.success response then set_stats st (Api.stats response)
        else st
    | Throws => st
    end in
  ({| gameId := gameId st1; attempts := attempts st1;
      evaluations := evaluations st1; currentAttempt := currentAttempt st1;
      gameStatus := gameStatus st1; keyboardStatus := keyboardStatus st1;
      isLoading := isLoading st1; error := error st1;
      solution := solution st1;
      stats := stats st1; statsLoading := false |}, [StatsRequest]).

Definition terminal (s : GameStatus) : bool :=
  bool_decide (s = Won) || bool_decide (s = Lost).

(** [submitGuess]. *)
Definition submitGuess (wordLength : nat) (st : State) (word : string)
    (net : Replies) : State * list Request :=
  match gameId st with
  | None => (st, [])
  | Some id =>
      if negb (JS.truthy (Some id))
         || negb (String.length word =? wordLength)%nat
         || negb (bool_decide (gameStatus st = Playing))
      then (st, [])
      else
        let st1 := set_error (set_isLoading st true) None in
        match onGuess net with
        | Body data =>
            if JS.truthy (guess_error data) then
              (set_isLoading (set_error st1 (guess_error data)) false,
               [GuessRequest id word])
            else
              let '(st2, sent2) := loadGameState st1 id net in
              let st3 := set_currentAttempt st2 (JS.fill wordLength "") in
              let '(st4, sent4) :=
                if terminal (guess_status data) then fetchStats st3 net
                else (st3, []) in
              (set_isLoading st4 false,
               [GuessRequest id word] ++ sent2 ++ sent4)
        | NetworkError | HttpError =>
            (set_isLoading
               (set_error st1
                  (Some "Failed to submit guess. Please try again."))
               false,
             [GuessRequest id word])
        end
  end.

(** [handleKeyPress]. *)
Definition handleKeyPress (wordLength : nat) (st : State) (key : string)
    (net : Replies) : State * list Request :=
  if negb (bool_decide (gameStatus st = Playing)) || isLoading st
  then (st, [])
  else if String.eqb key "Enter" then
    let word := JS.join (currentAttempt st) in
    if (String.length word =? wordLength)%nat
    then submitGuess wordLength st word net
    else (st, [])
  else if String.eqb key "Backspace" then
    let index := JS.findIndex (λ letter, JS.seq letter "") (currentAttempt st) in
    let deleteIndex :=
      if (index =? -1)%Z then (Z.of_nat wordLength - 1)%Z
      else (index - 1)%Z in
    if (0 <=? deleteIndex)%Z
    then (set_currentAttempt st
            (JS.set (currentAttempt st) (Z.to_nat deleteIndex) ""), [])
    else (st, [])
  else if JS.is_letter_key key then
    let index := JS.findIndex (λ letter, JS.seq letter "") (currentAttempt st) in
    if negb (index =? -1)%Z
    then (set_currentAttempt st
            (JS.set (currentAttempt st) (Z.to_nat index)
                    (JS.toUpperCase key)), [])
    else (st, [])
  else (st, []).

(** The game status message under the grid: nothing while playing,
    [You won!], or the lost message with [{solution}] ([null] prints as
    nothing). *)
Definition statusMessage (st : State) : option string :=
  match gameStatus st with
  | Playing => None
  | Won => Some "You won!"
  | Lost =>
      Some ("Game over! The word was: " ++ default "" (solution st))%string
  end.

(** *** Notions used to state the properties of the board *)

(** The server accepted the guess [word] and answered [data]: the call
    passed the guard of [submitGuess], the request went through and the
    answer carries no error. *)
Definition accepted (L : nat) (st : State) (word : string) (net : Replies)
    (data : GuessData) : Prop :=
  (∃ id, gameId st = Some id ∧ JS.truthy (Some id) = true)
  ∧ String.length word = L
  ∧ gameStatus st = Playing
  ∧ onGuess net = Body data
  ∧ JS.truthy (guess_error data) = false.

(** The board takes keys: the game is on and nothing is loading. *)
Definition active (st : State) : Prop :=
  gameStatus st = Playing ∧ isLoading st = false.

(** A letter cell: one upper-case letter. *)
Definition upper_letter (s : string) : Prop :=
  ∃ c, s = String c EmptyString ∧ JS.is_upper c = true.

(** The buffer that holds [letters] and then empty cells, [L] cells in
    all. *)
Definition buffer (L : nat) (letters : list string) : list (option string) :=
  (Some <$> letters) ++ JS.fill (L - length letters) "".

(** A buffer of [L] cells: upper-case letters, then empty cells. *)
Definition well_formed (L : nat) (cells : list (option string)) : Prop :=
  ∃ letters,
    length letters ≤ L ∧ Forall upper_letter letters
    ∧ cells = buffer L letters.

(** The keyboard status that [loadGameState] leaves, from the one it
    finds. *)
Definition reloaded (net : Replies) (ks : Keyboard.status_map)
    : Keyboard.status_map :=
  match onGame net with
  | Body data =>
      if JS.truthy (game_error data) then ks
      else default ks (Keyboard.mergeAll ks (game_attempts data)
                                         (game_evaluations data) 0)
  | _ => ks
  end.

(** Loading the game state once more, with the same answers. *)
Definition reload (id : string) (net : Replies) (st : State) : State :=
  (loadGameState st id net).1.

(** A board whose game is won, and answers in which every request fails. *)
Definition won_board : State :=
  {| gameId := Some "g1";
     attempts := [JS.split "CRANE"];
     evaluations := [["correct"; "correct"; "correct"; "correct"; "correct"]];
     currentAttempt := JS.fill 5 "";
     gameStatus := Won;
     keyboardStatus := ∅;
     isLoading := false; error := None; solution := Some "CRANE";
     stats := None; statsLoading := false |}.

Definition no_replies : Replies :=
  {| onNewGame := NetworkError; onGame := NetworkError;
     onGuess := NetworkError; onStats := Throws |}.

(** The answers of a server on which guess ERASE was just played against
    SPEED, and of one on which CRANE just won. *)
Definition erase_game : GameData :=
  {| game_error := None;
     game_attempts := ["ERASE"];
     game_evaluations := [["present"; "absent"; "absent"; "present";
                           "present"]];
     game_status := Playing;
     game_word := None |}.

Definition erase_replies : Replies :=
  {| onNewGame := NetworkError; onGame := Body erase_game;
     onGuess := Body {| guess_error := None; guess_status := Playing;
                        guess_word := None |};
     onStats := Throws |}.

Definition crane_guess : GuessData :=
  {| guess_error := None; guess_status := Won; guess_word := Some "CRANE" |}.

Definition crane_replies : Replies :=
  {| onNewGame := NetworkError; onGame := NetworkError;
     onGuess := Body crane_guess; onStats := Throws |}.

(** A board on which a game has just been started. *)
Definition started_board : State :=
  {| gameId := Some "g1"; attempts := []; evaluations := [];
     currentAttempt := JS.fill 5 "";
     gameStatus := Playing; keyboardStatus := ∅;
     isLoading := false; error := None; solution := None;
     stats := None; statsLoading := false |}.

End GameBoard.

(** ** The guess evaluator (specification section 4.1) *)
Module Evaluator.

(** Modelled from the spec: the three verdicts of section 3; the server
    code that produces them is not among the sources. *)
Inductive Verdict := Correct | Present | Absent.

#[global] Instance Verdict_eq_dec : EqDecision Verdict.
Proof. solve_decision. Defined.

(** Modelled from the spec: the error kinds of section 7; the server code
    that raises them is not among the sources. *)
Inductive Error :=
  | LengthMismatch
  | SessionTerminal
  | AttemptLimitReached
  | SessionNotFound
  | InvalidWord.

(** A word: an ordered sequence of single letters. *)
Abbreviation Word := (list ascii).

(** Modelled from the spec: the case normalization of a word ("letters are
    compared case-insensitively"); the server code that normalizes is not
    among the sources. *)
Definition normalize (w : Word) : Word := JS.upper_ascii <$> w.

(** Modelled from the spec: the per-letter remaining-count pool, "an
    explicit fixed-size frequency table indexed by letter identity"; the
    evaluator of the game server is not among the sources. *)
Definition Pool := ascii → nat.

Definition add_one (p : Pool) (c : ascii) : Pool :=
  λ x, if Ascii.eqb x c then S (p x) else p x.

Definition take_one (p : Pool) (c : ascii) : Pool :=
  λ x, if Ascii.eqb x c then pred (p x) else p x.

(** Modelled from the spec: the pool "initialized from the target's letter
    frequency"; the evaluator of the game server is not among the sources. *)
Definition frequency (target : Word) : Pool :=
  foldr (λ c p, add_one p c) (λ _, 0) target.

(** Modelled from the spec: pass 1 of the evaluator (section 4.1, "for each
    position i, if guess[i] == target[i], mark verdict Correct at i and
    decrement" the pool); the evaluator of the game server is not among
    the sources.  The result is the marks so far and the pool left. *)
Fixpoint pass1 (guess target : Word) (p : Pool)
    : list (option Verdict) * Pool :=
  match guess, target with
  | g :: guess', t :: target' =>
      if Ascii.eqb g t
      then let '(marks, p') := pass1 guess' target' (take_one p g) in
           (Some Correct :: marks, p')
      else let '(marks, p') := pass1 guess' target' p in
           (None :: marks, p')
  | _, _ => ([], p)
  end.

(** Modelled from the spec: pass 2 of the evaluator (section 4.1, "for each
    position not already Correct, in left-to-right order, if the guess
    letter has remaining count > 0 in the pool, mark Present and decrement
    that letter's remaining count; otherwise mark Absent"); the evaluator
    of the game server is not among the sources. *)
Fixpoint pass2 (guess : Word) (marks : list (option Verdict)) (p : Pool)
    : list Verdict :=
  match guess, marks with
  | g :: guess', Some v :: marks' => v :: pass2 guess' marks' p
  | g :: guess', None :: marks' =>
      if (0 <? p g)%nat
      then Present :: pass2 guess' marks' (take_one p g)
      else Absent :: pass2 guess' marks' p
  | _, _ => []
  end.

(** Modelled from the spec: [evaluate(guess, target)] of section 4.1, which
    "requires len(guess) == len(target) == L; otherwise fails with
    LengthMismatch"; the evaluator of the game server is not among the
    sources. *)
Definition evaluate (guess target : Word) : Error + list Verdict :=
  if (length guess =? length target)%nat then
    let g := normalize guess in
    let t := normalize target in
    let '(marks, p) := pass1 g t (frequency t) in
    inr (pass2 g marks p)
  else inl LengthMismatch.

(** Modelled from the spec: the win check ("a guess is fully correct iff
    every verdict in its sequence is Correct"). *)
Definition fullyCorrect (vs : list Verdict) : bool :=
  forallb (λ v, bool_decide (v = Correct)) vs.

(** The number of positions where the guess has letter [c] with verdict
    [v]. *)
Fixpoint count_verdict (c : ascii) (v : Verdict) (guess : Word)
    (vs : list Verdict) : nat :=
  match guess, vs with
  | g :: guess', x :: vs' =>
      (if decide (g = c ∧ x = v) then 1 else 0)
      + count_verdict c v guess' vs'
  | _, _ => 0
  end.

(** The number of occurrences of [c] in a word. *)
Fixpoint occurrences (c : ascii) (w : Word) : nat :=
  match w with
  | [] => 0
  | x :: w' => (if decide (x = c) then 1 else 0) + occurrences c w'
  end.

(** The number of positions that pass 1 marked for letter [c]. *)
Fixpoint marked (c : ascii) (guess : Word) (marks : list (option Verdict))
    : nat :=
  match guess, marks with
  | g :: guess', m :: marks' =>
      (if decide (g = c ∧ m = Some Correct) then 1 else 0)
      + marked c guess' marks'
  | _, _ => 0
  end.

(** What is left of letter [c] for position [i]: the target's count of
    [c], less the Correct matches of [c] anywhere and the Present matches
    of [c] before [i]. *)
Definition remaining (c : ascii) (guess target : Word) (vs : list Verdict)
    (i : nat) : nat :=
  occurrences c target
  - count_verdict c Correct guess vs
  - count_verdict c Present (take i guess) (take i vs).

(** The word as a list of letters. *)
Definition word (s : string) : Word := list_ascii_of_string s.

(** The marks of pass 1 are [Correct] marks only. *)
Definition marks_ok (marks : list (option Verdict)) : Prop :=
  Forall (λ m, m = None ∨ m = Some Correct) marks.

End Evaluator.

(** ** The session state machine (specification sections 3 and 4.2) *)
Module Session.
Import Evaluator.

(** Modelled from the spec: an attempt, "a guess word plus its verdict
    sequence plus its 1-based ordinal index", and a session with its
    target, maximum attempt count, attempts, keyboard status and status
    (section 3); the session code of the game server is not among the
    sources. *)
Record Attempt := {
  guess : Word;
  verdicts : list Verdict;
  ordinal : nat
}.

Record Session := {
  target : Word;
  wordLength : nat;
  maxAttempts : nat;
  attempts : list Attempt;
  keyboardStatus : gmap ascii Verdict;
  status : GameStatus
}.

Definition rank (v : Verdict) : nat :=
  match v with
  | Correct => 2
  | Present => 1
  | Absent => 0
  end.

(** Modelled from the spec: the upgrade-only merge of one verdict into the
    keyboard status, "an explicit rank comparison (Correct=2 > Present=1 >
    Absent=0)"; the session code of the game server is not among the
    sources. *)
Definition upgrade (ks : gmap ascii Verdict) (c : ascii) (v : Verdict)
    : gmap ascii Verdict :=
  match ks !! c with
  | Some old => if (rank old <? rank v)%nat then <[c := v]> ks else ks
  | None => <[c := v]> ks
  end.

Fixpoint mergeVerdicts (ks : gmap ascii Verdict) (g : Word)
    (vs : list Verdict) : gmap ascii Verdict :=
  match g, vs with
  | c :: g', v :: vs' => mergeVerdicts (upgrade ks c v) g' vs'
  | _, _ => ks
  end.

(** Modelled from the spec: [create(length L, maxAttempts M, target)], a
    "new Session with empty attempt sequence, status Playing", given "a
    valid Word of length L"; the session code of the game server is not
    among the sources. *)
Definition create (L M : nat) (t : Word) : Error + Session :=
  if (length t =? L)%nat then
    inr {| target := normalize t; wordLength := L; maxAttempts := M;
           attempts := []; keyboardStatus := ∅; status := Playing |}
  else inl LengthMismatch.

(** What [submitGuess] returns: the new attempt, the updated status and,
    only when the status is no longer [Playing], the target word. *)
Record GuessResult := {
  attempt : Attempt;
  newStatus : GameStatus;
  revealed : option Word
}.

(** Modelled from the spec: [submitGuess(session, guess)] of section 4.2,
    with its three failures in the order given there, the evaluation, the
    append, the merge and the transition; the session code of the game
    server is not among the sources. *)
Definition submitGuess (s : Session) (g : Word)
    : Error + (Session * GuessResult) :=
  if negb (bool_decide (status s = Playing)) then inl SessionTerminal
  else if negb (length g =? wordLength s)%nat then inl LengthMismatch
  else if (length (attempts s) =? maxAttempts s)%nat
  then inl AttemptLimitReached
  else
    match evaluate g (target s) with
    | inl e => inl e
    | inr vs =>
        let a := {| guess := normalize g; verdicts := vs;
                    ordinal := length (attempts s) + 1 |} in
        let attempts' := attempts s ++ [a] in
        let status' :=
          if fullyCorrect vs then Won
          else if (length attempts' =? maxAttempts s)%nat then Lost
          else Playing in
        inr ({| target := target s; wordLength := wordLength s;
                maxAttempts := maxAttempts s; attempts := attempts';
                keyboardStatus :=
                  mergeVerdicts (keyboardStatus s) (normalize g) vs;
                status := status' |},
             {| attempt := a; newStatus := status';
                revealed := if bool_decide (status' = Playing) then None
                            else Some (target s) |})
    end.

(** The read-only projection of a session. *)
Record View := {
  view_attempts : list Attempt;
  view_keyboard : gmap ascii Verdict;
  view_status : GameStatus;
  view_word : option Word
}.

(** Modelled from the spec: [currentView(session)], the "ordered Attempts,
    KeyboardStatus, status, and (if terminal) the target word"; the
    session code of the game server is not among the sources. *)
Definition currentView (s : Session) : View :=
  {| view_attempts := attempts s;
     view_keyboard := keyboardStatus s;
     view_status := status s;
     view_word := if bool_decide (status s = Playing) then None
                  else Some (target s) |}.

(** The sessions the state machine can be in: created, then any number of
    accepted guesses. *)
Inductive reachable : Session → Prop :=
  | reachable_create L M t s :
      create L M t = inr s → reachable s
  | reachable_submit s g s' r :
      reachable s → submitGuess s g = inr (s', r) → reachable s'.

(** What holds of every session the state machine can be in: the target
    is normalized, and while the session is Playing no recorded guess is
    the target. *)
Definition hidden (s : Session) : Prop :=
  normalize (target s) = target s
  ∧ (status s = Playing → ∀ a, a ∈ attempts s → guess a ≠ target s).

(** The session created for target CRANE with six attempts. *)
Definition crane_session : Session :=
  {| target := word "CRANE"; wordLength := 5; maxAttempts := 6;
     attempts := []; keyboardStatus := ∅; status := Playing |}.

Definition verdict_string (v : Verdict) : string :=
  match v with
  | Correct => "correct"
  | Present => "present"
  | Absent => "absent"
  end.

(** Modelled from the spec: the body the server sends for a view, in the
    fields of [GameResponse] that the board reads ("ordered attempt list
    with per-letter verdicts, current status, and (only post-terminal) the
    revealed word"); the server code is not among the sources. *)
Definition gameData (v : View) : GameBoard.GameData :=
  {| GameBoard.game_error := None;
     GameBoard.game_attempts :=
       (λ a, string_of_list_ascii (guess a)) <$> view_attempts v;
     GameBoard.game_evaluations :=
       (λ a, verdict_string <$> verdicts a) <$> view_attempts v;
     GameBoard.game_status := view_status v;
     GameBoard.game_word := string_of_list_ascii <$> view_word v |}.

(** Modelled from the spec: the body the server sends for an accepted
    guess, in the fields of [GuessResponse] that the board reads; the
    server code is not among the sources. *)
Definition guessData (r : GuessResult) : GameBoard.GuessData :=
  {| GameBoard.guess_error := None;
     GameBoard.guess_status := newStatus r;
     GameBoard.guess_word := string_of_list_ascii <$> revealed r |}.

End Session.

(** ** What the board shows
    (part_000: [getStatusColor] lines 255-266, the grid lines 301-346, the
    virtual keyboard lines 359-375 and 454-514; the same code is in the
    third component of GameStats.tsx) *)
Module BoardView.
Import GameBoard.

(** [getStatusColor]. *)
Definition getStatusColor (status : string) : string :=
  if String.eqb status "correct" then "bg-green-500 text-white"
  else if String.eqb status "present" then "bg-yellow-500 text-white"
  else if String.eqb status "absent" then "bg-gray-500 text-white"
  else "bg-white border-2 border-gray-300".

(** [evaluations[attemptIndex]?.[letterIndex] || ""]. *)
Definition cellStatus (evaluations : list (list string))
    (attemptIndex letterIndex : nat) : string :=
  match JS.get evaluations attemptIndex with
  | Some evaluation => default "" (JS.get evaluation letterIndex)
  | None => ""
  end.

(** A row of the grid: a previous attempt with the colour of each letter,
    the current attempt, or a blank row of so many cells. *)
Inductive Row :=
  | AttemptRow (cells : list (string * string))
  | CurrentRow (cells : list (option string))
  | EmptyRow (cells : nat).

(** [attempts.map((attempt, attemptIndex) => attempt.map((letter,
    letterIndex) => ...))]. *)
Definition attemptRows (st : State) : list Row :=
  imap (λ attemptIndex attempt,
          AttemptRow
            (imap (λ letterIndex letter,
                     (letter,
                      getStatusColor
                        (cellStatus (evaluations st) attemptIndex
                                    letterIndex)))
                  attempt))
       (attempts st).

(** [Array.from({ length: n })] has no element when [n] is negative. *)
Definition arrayFrom {A} (n : Z) (x : A) : list A := replicate (Z.to_nat n) x.

(** The rows of the grid: the previous attempts, then, while the game is
    on, the current attempt and
    [Array.from({ length: maxAttempts - attempts.length - 1 })] blank
    rows. *)
Definition grid (maxAttempts wordLength : nat) (st : State) : list Row :=
  attemptRows st
  ++ (if bool_decide (gameStatus st = Playing)
      then [CurrentRow (currentAttempt st)] else [])
  ++ (if bool_decide (gameStatus st = Playing)
      then arrayFrom (Z.of_nat maxAttempts
                      - Z.of_nat (length (attempts st)) - 1)%Z
                     (EmptyRow wordLength)
      else []).

(** The rows of buttons of [VirtualKeyboard]. *)
Definition rows : list (list string) :=
  [["Q"; "W"; "E"; "R"; "T"; "Y"; "U"; "I"; "O"; "P"];
   ["A"; "S"; "D"; "F"; "G"; "H"; "J"; "K"; "L"];
   ["Enter"; "Z"; "X"; "C"; "V"; "B"; "N"; "M"; "Backspace"]].

(** [getKeyColor]. *)
Definition getKeyColor (keyboardStatus : Keyboard.status_map) (key : string)
    : string :=
  if String.eqb key "Enter" || String.eqb key "Backspace" then "bg-gray-200"
  else
    let status := Keyboard.read keyboardStatus key in
    if JS.seq status "correct" then "bg-green-500 text-white"
    else if JS.seq status "present" then "bg-yellow-500 text-white"
    else if JS.seq status "absent" then "bg-gray-500 text-white"
    else "bg-gray-200".

(** The key that the button [key] passes to [onKeyPress]. *)
Definition clicked (key : string) : string :=
  if String.eqb key "Backspace" then "Backspace"
  else if String.eqb key "Enter" then "Enter"
  else key.

(** A click on the button [key] of the keyboard of the board: the keyboard
    is there only while the game is on, its buttons are disabled while
    the board is loading, and a click calls [handleKeyPress]. *)
Definition click (wordLength : nat) (st : State) (key : string)
    (net : Replies) : State * list Request :=
  if bool_decide (gameStatus st = Playing) && negb (isLoading st)
  then handleKeyPress wordLength st (clicked key) net
  else (st, []).

(** *** Notions used to state the properties of the view *)

(** Two boards hold the same game: identifier, attempts, evaluations,
    buffer, status, keyboard status and solution. *)
Definition same_game (st st' : State) : Prop :=
  gameId st' = gameId st
  ∧ attempts st' = attempts st
  ∧ evaluations st' = evaluations st
  ∧ currentAttempt st' = currentAttempt st
  ∧ gameStatus st' = gameStatus st
  ∧ keyboardStatus st' = keyboardStatus st
  ∧ solution st' = solution st.

(** The keyboard status holds nothing but verdicts of the attempts. *)
Definition from_attempts (ks : Keyboard.status_map) (attempts : list string)
    (evaluations : list (list string)) : Prop :=
  ∀ letter s,
    Keyboard.read ks letter = Some s →
    s ∈ Keyboard.received letter attempts evaluations.

End BoardView.

(** ** The stand-alone board, one key after the other
    (GameStats.tsx lines 189-247 and 276-290)

    The handlers of [LocalBoard] run a submission as one step.  That is
    the board when every check is answered before the next key is
    pressed; [LocalAsync] below has the checks on their way, and shows
    that both give the same states then. *)
Module LocalRun.
Import LocalBoard.

(** The keys pressed since the first render, one after the other, each
    with what the server answers should the key start a submission; the
    answer comes before the next key. *)
Definition run (maxAttempts wordLength : nat)
    (events : list (string * Fetch CheckResult)) : State :=
  foldl (λ st event,
           handleKeyPress maxAttempts wordLength st event.1 event.2)
        (initial maxAttempts wordLength) events.


(** *** Notions used to state the properties of the runs *)

(** The number of letters that row [k] holds: the rows before the current
    attempt are full, the current one is filled up to the current
    position, the rows after it are empty. *)
Definition letters_in (L : nat) (st : State) (k : nat) : nat :=
  if (k <? currentAttempt st)%nat then L
  else if (k =? currentAttempt st)%nat then currentPosition st
  else 0.

(** The shape of the state of the board: two grids of [M] rows, every row
    of attempts made of its upper-case letters followed by empty cells,
    [L] cells in all; the rows still to play have a blank evaluation; the
    position is within the row and the attempt within the grid. *)
Definition shaped (M L : nat) (st : State) : Prop :=
  length (attempts st) = M
  ∧ length (evaluation st) = M
  ∧ currentPosition st ≤ L
  ∧ (0 < M → currentAttempt st < M)
  ∧ (∀ k row, attempts st !! k = Some row →
       ∃ letters,
         Forall GameBoard.upper_letter letters
         ∧ length letters = letters_in L st k
         ∧ row = GameBoard.buffer L letters)
  ∧ (∀ k, currentAttempt st < k → k < M →
       evaluation st !! k = Some (Some (replicate L ""))).

(** No request reaches the server. *)
Definition offline (events : list (string * Fetch CheckResult)) : Prop :=
  Forall (λ event, ∀ data, event.2 ≠ Body data) events.

End LocalRun.

(** ** Verdicts and the flag of a check (GameStats.tsx lines 159-187 and
    239-246) *)
Module LocalCheck.
Import LocalBoard.





End LocalCheck.

(** ** The stand-alone board with its checks on their way
    (GameStats.tsx lines 139-258, 302-306 and 350-363)

    [handleSubmit] is [async]: it reads the state of the render it was
    called in, sends the word, awaits [checkWord] and only then writes,
    from what it read before.  Nothing stops a key, nor another Enter,
    while a check is on its way.  So a submission is two events here: the
    key that starts it and the answer that ends it, and any keys or
    answers may come in between.

    The rows of the grid are arrays written in place
    ([newAttempts[currentAttempt][currentPosition] = ...] on a shallow
    copy of [attempts]), so every render and every closure holds the very
    same rows: [attempts] of the last render is the grid that all of them
    see. *)
Module LocalAsync.
Import LocalBoard.

(** A check on its way: the [currentAttempt], [evaluation] and
    [keyboardStatus] of the render in which [handleSubmit] was called. *)
Record Pending := {
  p_attempt : nat;
  p_evaluation : list (option (list string));
  p_keyboardStatus : Keyboard.status_map
}.

(** The board: the state of the last render, the [evaluation] and
    [keyboardStatus] in the closure of the [keydown] listener (the effect
    registers the listener again only when [currentAttempt],
    [currentPosition], [attempts] or [gameStatus] has changed, so these
    two may be those of an earlier render), and the checks on their
    way. *)
Record Board := {
  shown : State;
  heardEvaluation : list (option (list string));
  heardKeyboardStatus : Keyboard.status_map;
  pending : list Pending
}.

(** The first render. *)
Definition start (maxAttempts wordLength : nat) : Board :=
  {| shown := initial maxAttempts wordLength;
     heardEvaluation := evaluation (initial maxAttempts wordLength);
     heardKeyboardStatus := keyboardStatus (initial maxAttempts wordLength);
     pending := [] |}.

(** A render after which the effect registers the listener again. *)
Definition listening (st : State) (queue : list Pending) : Board :=
  {| shown := st;
     heardEvaluation := evaluation st;
     heardKeyboardStatus := keyboardStatus st;
     pending := queue |}.

(** [handleKeyPress] of a render whose closure holds [evaluation] and
    [keyboardStatus]; Enter runs [handleSubmit] up to its [await].  A
    letter and Backspace set [attempts] to a new array, so the listener is
    registered again. *)
Definition handleKeyPress (wordLength : nat) (b : Board)
    (evaluation : list (option (list string)))
    (keyboardStatus : Keyboard.status_map) (key : string) : Board :=
  let st := shown b in
  if negb (bool_decide (gameStatus st = Playing)) then b
  else if String.eqb key "Enter" then
    if negb (currentPosition st =? wordLength)%nat then b
    else
      match currentRow st with
      | None => b
      | Some _ =>
          {| shown := st;
             heardEvaluation := heardEvaluation b;
             heardKeyboardStatus := heardKeyboardStatus b;
             pending :=
               pending b
               ++ [{| p_attempt := currentAttempt st;
                      p_evaluation := evaluation;
                      p_keyboardStatus := keyboardStatus |}] |}
      end
  else if String.eqb key "Backspace" then
    if (0 <? currentPosition st)%nat then
      match currentRow st with
      | None => b
      | Some row =>
          listening
            {| attempts := writeCell st row (currentPosition st - 1) "";
               currentAttempt := currentAttempt st;
               currentPosition := currentPosition st - 1;
               gameStatus := gameStatus st;
               LocalBoard.evaluation := LocalBoard.evaluation st;
               LocalBoard.keyboardStatus := LocalBoard.keyboardStatus st |}
            (pending b)
      end
    else b
  else if JS.is_letter_key key && (currentPosition st <? wordLength)%nat then
    match currentRow st with
    | None => b
    | Some row =>
        listening
          {| attempts :=
               writeCell st row (currentPosition st) (JS.toUpperCase key);
             currentAttempt := currentAttempt st;
             currentPosition := currentPosition st + 1;
             gameStatus := gameStatus st;
             LocalBoard.evaluation := LocalBoard.evaluation st;
             LocalBoard.keyboardStatus := LocalBoard.keyboardStatus st |}
          (pending b)
    end
  else b.

(** [handleSubmit] from its [await] on, for the check [p] answered with
    [reply], on the state [st] of the last render: [evaluation],
    [keyboardStatus] and [currentAttempt] are those that [p] read, the
    row is the one now in the grid.  ([setEvaluation] comes before the row
    is read, so it stands even if reading the row throws.) *)
Definition resolve (maxAttempts wordLength : nat) (st : State)
    (p : Pending) (reply : Fetch CheckResult) : State :=
  let result := checkWord wordLength reply in
  let newEvaluation :=
    JS.set (p_evaluation p) (p_attempt p) (result_evaluation result) in
  match JS.get (attempts st) (p_attempt p) with
  | None =>
      {| attempts := attempts st;
         currentAttempt := currentAttempt st;
         currentPosition := currentPosition st;
         gameStatus := gameStatus st;
         evaluation := newEvaluation;
         keyboardStatus := keyboardStatus st |}
  | Some row =>
      let newKeyboardStatus :=
        Keyboard.mergeWord (p_keyboardStatus p) row
                           (result_evaluation result) 0 in
      if correct result then
        {| attempts := attempts st;
           currentAttempt := currentAttempt st;
           currentPosition := currentPosition st;
           gameStatus := Won;
           evaluation := newEvaluation;
           keyboardStatus := newKeyboardStatus |}
      else if (Z.of_nat (p_attempt p) =? Z.of_nat maxAttempts - 1)%Z then
        {| attempts := attempts st;
           currentAttempt := currentAttempt st;
           currentPosition := currentPosition st;
           gameStatus := Lost;
           evaluation := newEvaluation;
           keyboardStatus := newKeyboardStatus |}
      else
        {| attempts := attempts st;
           currentAttempt := p_attempt p + 1;
           currentPosition := 0;
           gameStatus := gameStatus st;
           evaluation := newEvaluation;
           keyboardStatus := newKeyboardStatus |}
  end.

(** One of the dependencies of the effect, other than [attempts], has
    changed. *)
Definition changed (st st' : State) : bool :=
  negb (bool_decide (currentAttempt st' = currentAttempt st))
  || negb (bool_decide (currentPosition st' = currentPosition st))
  || negb (bool_decide (gameStatus st' = gameStatus st)).

(** The check number [i] of those on their way is answered. *)
Definition answer (maxAttempts wordLength : nat) (b : Board) (i : nat)
    (reply : Fetch CheckResult) : Board :=
  match pending b !! i with
  | None => b
  | Some p =>
      let st' := resolve maxAttempts wordLength (shown b) p reply in
      if changed (shown b) st' then listening st' (delete i (pending b))
      else
        {| shown := st';
           heardEvaluation := heardEvaluation b;
           heardKeyboardStatus := heardKeyboardStatus b;
           pending := delete i (pending b) |}
  end.

(** What happens to the board: a key of the physical keyboard, handled by
    the listener; a click on a button of the virtual keyboard, which is
    disabled once the game is over and calls the [handleKeyPress] of the
    last render; the answer to a check. *)
Inductive Event :=
  | KeyDown (key : string)
  | Click (key : string)
  | Answer (i : nat) (reply : Fetch CheckResult).

Definition step (maxAttempts wordLength : nat) (b : Board) (event : Event)
    : Board :=
  match event with
  | KeyDown key =>
      handleKeyPress wordLength b (heardEvaluation b)
                     (heardKeyboardStatus b) key
  | Click key =>
      if bool_decide (gameStatus (shown b) = Playing)
      then handleKeyPress wordLength b (evaluation (shown b))
                          (keyboardStatus (shown b)) (BoardView.clicked key)
      else b
  | Answer i reply => answer maxAttempts wordLength b i reply
  end.

(** The events since the first render. *)
Definition run (maxAttempts wordLength : nat) (events : list Event) : Board :=
  foldl (step maxAttempts wordLength) (start maxAttempts wordLength) events.

(** *** Notions used to state the properties of the board *)

Definition is_key (event : Event) : bool :=
  match event with
  | Answer _ _ => false
  | KeyDown _ | Click _ => true
  end.

(** No check is on its way. *)
Definition idle (b : Board) : bool :=
  match pending b with
  | [] => true
  | _ :: _ => false
  end.

(** Every key of [events], played from [b], comes when no check is on its
    way. *)
Fixpoint calm_from (maxAttempts wordLength : nat) (b : Board)
    (events : list Event) : bool :=
  match events with
  | [] => true
  | event :: rest =>
      (negb (is_key event) || idle b)
      && calm_from maxAttempts wordLength
                   (step maxAttempts wordLength b event) rest
  end.

Definition calm (maxAttempts wordLength : nat) (events : list Event) : Prop :=
  calm_from maxAttempts wordLength (start maxAttempts wordLength) events
  = true.

(** The keys of [events], one after the other, each followed by the
    answer to the check it may have started. *)
Definition settled (events : list (string * Fetch CheckResult))
    : list Event :=
  flat_map (λ event, [KeyDown event.1; Answer 0 event.2]) events.

(** A cell of the grid: empty, or one upper-case letter. *)
Definition cell (c : option string) : Prop :=
  c = Some "" ∨ ∃ s, c = Some s ∧ GameBoard.upper_letter s.



(** The cell at the cursor is empty. *)
Definition cursor_on_empty (st : State) : Prop :=
  ∀ row, currentRow st = Some row →
    row !! currentPosition st = Some (Some "").

(** No check is answered by the server. *)
Definition unanswered (events : list Event) : Prop :=
  ∀ i reply data, Answer i reply ∈ events → reply ≠ Body data.

End LocalAsync.

(** ** The board that plays against the server, over any sequence of
    events (part_000 lines 52-246) *)
Module BoardRun.
Import GameBoard.

(** What sets a handler of the board going: the first render and the New
    Game and Play Again buttons ([startNewGame]), the first render and the
    Stats button ([fetchStats]), the effect on [gameId]
    ([loadGameState]), a key of the physical keyboard and a click on a
    button of the virtual one. *)
Inductive Event :=
  | StartNewGame
  | FetchStats
  | LoadGameState (id : string)
  | KeyDown (key : string)
  | Click (key : string).

Definition handle (maxAttempts wordLength : nat) (st : State)
    (event : Event) (net : Replies) : State * list Request :=
  match event with
  | StartNewGame => startNewGame maxAttempts wordLength st net
  | FetchStats => fetchStats st net
  | LoadGameState id => loadGameState st id net
  | KeyDown key => handleKeyPress wordLength st key net
  | Click key => BoardView.click wordLength st key net
  end.

(** The events since the first render, each with what the outside answers
    to its handler. *)
Definition run (maxAttempts wordLength : nat)
    (events : list (Event * Replies)) : State :=
  foldl (λ st event, (handle maxAttempts wordLength st event.1 event.2).1)
        (initial wordLength) events.

(** The effect [useEffect(() => { if (gameId) loadGameState(gameId) },
    [gameId])] after a render: it runs when [gameId] is not what it was at
    the render before ([previous]), with the state of this render. *)
Definition gameIdEffect (previous : option string) (st : State)
    (net : Replies) : State * list Request :=
  if bool_decide (gameId st = previous) then (st, [])
  else
    match gameId st with
    | Some id =>
        if JS.truthy (Some id) then loadGameState st id net else (st, [])
    | None => (st, [])
    end.

(** A new game: [startNewGame], then the effect on [gameId] of the render
    that follows. *)
Definition newGame (maxAttempts wordLength : nat) (st : State)
    (net net' : Replies) : State * list Request :=
  let '(st1, sent1) := startNewGame maxAttempts wordLength st net in
  let '(st2, sent2) := gameIdEffect (gameId st) st1 net' in
  (st2, sent1 ++ sent2).

(** *** Notions used to state the properties of the runs *)

(** The answer to [GET /api/game/<id>] leaves a word without its
    evaluation: [attempts] has a word with a letter at a place where
    [evaluations] has nothing. *)
Definition unevaluated (attempts : list string)
    (evaluations : list (list string)) : Prop :=
  ∃ i word,
    attempts !! i = Some word ∧ word ≠ "" ∧ length evaluations ≤ i.

(** The request failed, or the server answered with an error. *)
Definition load_failed (net : Replies) : Prop :=
  ∀ data, onGame net = Body data → JS.truthy (game_error data) = true.

Definition guess_failed (net : Replies) : Prop :=
  ∀ data, onGuess net = Body data → JS.truthy (guess_error data) = true.

End BoardRun.


(** * Properties *)

(** ** Keys and letters *)
Module JSFacts.

(** A letter key is neither of the two named keys. *)
Lemma letter_key_not_special key :
  JS.is_letter_key key = true →
  String.eqb key "Enter" = false ∧ String.eqb key "Backspace" = false.
Proof.
  destruct key as [|c [|c' rest]]; simpl; try done.
  intros _. split.
  - by destruct (Ascii.eqb c "E").
  - by destruct (Ascii.eqb c "B").
Qed.

End JSFacts.

(** ** The keyboard-status merge, one key at a time *)
Module KeyboardFacts.
Import Keyboard.

Lemma read_lookup (ks : status_map) l : read ks l = default None (ks !! l).
Proof. unfold read. by destruct (ks !! l). Qed.

Lemma lookup_mergeLetter (ks : status_map) l s l' :
  mergeLetter ks l s !! l'
  = if decide (l = l') then step (ks !! l) s else ks !! l'.
Proof.
  unfold mergeLetter, step. rewrite read_lookup.
  destruct (decide (l = l')) as [<-|Hne].
  - destruct (upgrades _ _); [by rewrite lookup_insert_eq|done].
  - destruct (upgrades _ _); [by rewrite lookup_insert_ne|done].
Qed.

Lemma lookup_mergeWord (l : string) (e : list string) cells :
  ∀ (ks : status_map) index,
    mergeWord ks cells e index !! l
    = foldl step (ks !! l) (statuses l cells e index).
Proof.
  induction cells as [|[l'|] rest IH]; intros ks index; simpl; [done| |by apply IH].
  rewrite IH, lookup_mergeLetter.
  destruct (decide (l' = l)) as [->|]; by simpl.
Qed.

Lemma lookup_mergeAll (l : string) evaluations attempts :
  ∀ (ks ks' : status_map) index,
    mergeAll ks attempts evaluations index = Some ks' →
    ks' !! l = foldl step (ks !! l) (all_statuses l attempts evaluations index).
Proof.
  induction attempts as [|w rest IH]; intros ks ks' index; simpl.
  - by intros [= ->].
  - unfold mergeAttempt.
    destruct (JS.get evaluations index) as [e|] eqn:He.
    + intros H. rewrite (IH _ _ _ H), foldl_app. by rewrite lookup_mergeWord.
    + destruct (JS.split w); [|done]. intros H. by rewrite (IH _ _ _ H).
Qed.

(** Whether [mergeAll] throws depends on the data only. *)
Lemma mergeAll_defined evaluations attempts :
  ∀ (ks1 ks2 : status_map) index,
    is_Some (mergeAll ks1 attempts evaluations index) →
    is_Some (mergeAll ks2 attempts evaluations index).
Proof.
  induction attempts as [|w rest IH]; intros ks1 ks2 index; simpl; [by eauto|].
  unfold mergeAttempt.
  destruct (JS.get evaluations index) as [e|]; [by apply IH|].
  destruct (JS.split w); [by apply IH|]. by intros [? [=]].
Qed.

Lemma step_low raw s : class raw = Low → step raw s = Some s.
Proof.
  unfold class, step, upgrades.
  destruct raw as [[v|]|]; simpl; try done.
  destruct (String.eqb_spec v ""); simpl; [done|].
  destruct (String.eqb_spec v "absent") as [->|]; simpl;
    [|by destruct (String.eqb v "present")].
  intros _. destruct s as [s|]; simpl; [|done].
  by destruct (String.eqb_spec s "absent") as [->|].
Qed.

Lemma step_mid raw s :
  class raw = Mid → step raw s = if JS.seq s "correct" then Some s else raw.
Proof.
  unfold class, step, upgrades.
  destruct raw as [[v|]|]; simpl; try done.
  destruct (String.eqb_spec v ""); simpl; [done|].
  destruct (String.eqb_spec v "absent"); simpl; [done|].
  by destruct (String.eqb_spec v "present").
Qed.

Lemma step_stuck raw s : class raw = Stuck → step raw s = raw.
Proof.
  unfold class, step, upgrades.
  destruct raw as [[v|]|]; simpl; try done.
  destruct (String.eqb_spec v ""); simpl; [done|].
  destruct (String.eqb_spec v "absent"); simpl; [done|].
  by destruct (String.eqb_spec v "present").
Qed.

Lemma class_correct s : JS.seq s "correct" = true → class (Some s) = Stuck.
Proof.
  destruct s as [s|]; simpl; [|done].
  by intros ->%String.eqb_eq.
Qed.

Lemma foldl_step_stuck ss : ∀ raw, class raw = Stuck → foldl step raw ss = raw.
Proof.
  induction ss as [|s ss IH]; intros raw H; simpl; [done|].
  rewrite step_stuck by done. by apply IH.
Qed.

(** A value that has left the lowest class never comes back to it. *)
Lemma step_not_low raw s : class raw ≠ Low → class (step raw s) ≠ Low.
Proof.
  intros H. destruct (class raw) eqn:Hc; [done| |].
  - rewrite step_mid by done.
    destruct (JS.seq s "correct") eqn:Hs; [|by rewrite Hc].
    by rewrite class_correct.
  - rewrite step_stuck by done. by rewrite Hc.
Qed.

Lemma foldl_step_not_low ss :
  ∀ raw, class raw ≠ Low → class (foldl step raw ss) ≠ Low.
Proof.
  induction ss as [|s ss IH]; intros raw H; simpl; [done|].
  by apply IH, step_not_low.
Qed.

(** Folding the same statuses a second time changes nothing. *)
Lemma foldl_step_idempotent ss :
  ∀ raw, foldl step (foldl step raw ss) ss = foldl step raw ss.
Proof.
  induction ss as [|s t IH]; intros raw; simpl; [done|].
  set (d := step raw s). set (v := foldl step d t).
  assert (Hv : foldl step v t = v) by apply IH.
  destruct (class v) eqn:Hc.
  - (* the value is still in the lowest class: so were [d] and [raw] *)
    assert (Hd : class d = Low).
    { destruct (class d) eqn:Hd; [done| |];
        exfalso; by apply (foldl_step_not_low t d); [rewrite Hd|]. }
    assert (Hr : class raw = Low).
    { destruct (class raw) eqn:Hr; [done| |];
        exfalso; by apply (step_not_low raw s); [rewrite Hr|]. }
    rewrite (step_low v) by done.
    fold v. unfold v at 1. unfold d. by rewrite (step_low raw).
  - rewrite step_mid by done.
    destruct (JS.seq s "correct") eqn:Hs; [|done].
    (* a "correct" was offered first: [d] is stuck, and so is [v] *)
    exfalso.
    assert (Hd : class d = Stuck).
    { unfold d. destruct (class raw) eqn:Hr.
      - rewrite step_low by done. by apply class_correct.
      - rewrite step_mid, Hs by done. by apply class_correct.
      - by rewrite step_stuck. }
    unfold v in Hc. rewrite foldl_step_stuck in Hc by done. congruence.
  - by rewrite step_stuck.
Qed.


(** *** With verdicts only, the merge keeps the best verdict *)

Lemma raw_best_best raw pool : raw_best raw pool → best (default None raw) pool.
Proof. destruct raw as [[v|]|]; simpl; [tauto|done|done]. Qed.

Lemma raw_best_known (ks : status_map) l :
  valid_keyboard ks → raw_best (ks !! l) (known ks l).
Proof.
  intros Hv. unfold known. rewrite read_lookup.
  destruct (ks !! l) as [v|] eqn:H; simpl; [|done].
  destruct (Hv _ _ H) as (s & -> & Hs). simpl.
  split; [done|]. split; [set_solver|].
  intros s' ->%list_elem_of_singleton. done.
Qed.

Lemma step_verdict raw pool s :
  raw_best raw pool → verdict s → raw_best (step raw (Some s)) (pool ++ [s]).
Proof.
  intros Hraw Hs. destruct raw as [[v|]|]; simpl in *.
  - destruct Hraw as (Hv & Hin & Hmax).
    assert (Hcases :
      (step (Some (Some v)) (Some s) = Some (Some s) ∧ rank v ≤ rank s)
      ∨ (step (Some (Some v)) (Some s) = Some (Some v) ∧ rank s ≤ rank v)).
    { destruct Hv as [->| [->| ->]], Hs as [->| [->| ->]];
        vm_compute; auto. }
    destruct Hcases as [[-> Hle]|[-> Hle]]; simpl.
    + split; [done|]. split; [set_solver|].
      intros s' [H| ->%list_elem_of_singleton]%elem_of_app; [|done].
      specialize (Hmax _ H). lia.
    + split; [done|]. split; [set_solver|].
      intros s' [H| ->%list_elem_of_singleton]%elem_of_app; [|done].
      by apply Hmax.
  - done.
  - subst pool. unfold step. simpl. split; [done|]. split; [set_solver|].
    intros s' ->%list_elem_of_singleton. done.
Qed.

Lemma foldl_step_verdicts vs :
  ∀ raw pool, raw_best raw pool → Forall verdict vs →
    raw_best (foldl step raw (Some <$> vs)) (pool ++ vs).
Proof.
  induction vs as [|s vs IH]; intros raw pool Hraw Hvs; simpl.
  - by rewrite app_nil_r.
  - inversion Hvs; subst.
    replace (pool ++ s :: vs) with ((pool ++ [s]) ++ vs)
      by (by rewrite <- app_assoc).
    apply IH; [|done]. by apply step_verdict.
Qed.

Lemma received_in_verdicts l cells e :
  Forall verdict e → Forall verdict (received_in l cells e).
Proof.
  intros He. revert cells.
  induction He as [|s e Hs He IH]; intros [|c cells]; simpl; try done.
  destruct (decide (c = Some l)); [constructor|]; auto.
Qed.

Lemma statuses_received l cells :
  ∀ e index, length cells + index ≤ length e →
    statuses l cells e index = Some <$> received_in l cells (drop index e).
Proof.
  induction cells as [|c cells IH]; intros e index Hlen; simpl; [done|].
  simpl in Hlen.
  destruct (drop index e) as [|s e'] eqn:Hd.
  { apply (f_equal length) in Hd. rewrite length_drop in Hd. simpl in Hd. lia. }
  assert (He : e !! index = Some s).
  { rewrite <- (Nat.add_0_r index), <- lookup_drop, Hd. done. }
  assert (Hd' : drop (S index) e = e').
  { change (S index) with (1 + index). rewrite Nat.add_comm.
    rewrite <- drop_drop, Hd. done. }
  specialize (IH e (S index)). rewrite Hd' in IH.
  destruct c as [l'|].
  - unfold JS.get. rewrite He.
    destruct (decide (l' = l)) as [->|Hne].
    + rewrite decide_True by done. simpl. f_equal. apply IH. lia.
    + rewrite decide_False by congruence. apply IH. lia.
  - rewrite decide_False by done. apply IH. lia.
Qed.

Lemma length_split w : length (JS.split w) = String.length w.
Proof. induction w; simpl; congruence. Qed.

Lemma all_statuses_received l attempts :
  ∀ evaluations index,
    aligned attempts (drop index evaluations) →
    all_statuses l attempts evaluations index
    = Some <$> received l attempts (drop index evaluations)
    ∧ Forall verdict (received l attempts (drop index evaluations)).
Proof.
  induction attempts as [|w rest IH]; intros evaluations index Hal; simpl.
  { split; [done|constructor]. }
  destruct (drop index evaluations) as [|e es] eqn:Hd; [inversion Hal|].
  apply Forall2_cons in Hal as [[Hlen He] Hrest].
  assert (Hget : evaluations !! index = Some e).
  { rewrite <- (Nat.add_0_r index), <- lookup_drop, Hd. done. }
  assert (Hd' : drop (S index) evaluations = es).
  { change (S index) with (1 + index). rewrite Nat.add_comm.
    rewrite <- drop_drop, Hd. done. }
  specialize (IH evaluations (S index)). rewrite Hd' in IH.
  destruct (IH Hrest) as [IH1 IH2].
  unfold JS.get. rewrite Hget, IH1, fmap_app. split.
  - f_equal. rewrite statuses_received.
    + by rewrite drop_0.
    + rewrite length_fmap, length_split. lia.
  - apply Forall_app. split; [|done]. by apply received_in_verdicts.
Qed.

Lemma mergeAll_aligned_defined attempts :
  ∀ (ks : status_map) evaluations index,
    aligned attempts (drop index evaluations) →
    is_Some (mergeAll ks attempts evaluations index).
Proof.
  induction attempts as [|w rest IH]; intros ks evaluations index Hal; simpl.
  { by eauto. }
  destruct (drop index evaluations) as [|e es] eqn:Hd; [inversion Hal|].
  apply Forall2_cons in Hal as [_ Hrest].
  assert (Hget : evaluations !! index = Some e).
  { rewrite <- (Nat.add_0_r index), <- lookup_drop, Hd. done. }
  unfold JS.get. rewrite Hget. simpl. apply IH.
  change (S index) with (1 + index). rewrite Nat.add_comm.
  by rewrite <- drop_drop, Hd.
Qed.

Lemma raw_best_valid (ks : status_map) (pool : string → list string) :
  (∀ l, raw_best (ks !! l) (pool l)) → valid_keyboard ks.
Proof.
  intros H l v Hl. specialize (H l). rewrite Hl in H.
  destruct v as [s|]; [|done]. exists s. by destruct H.
Qed.

(** The merge of [loadGameState] on verdicts: each key ends with the best
    of what it held and what it received. *)
Lemma mergeAll_best (ks : status_map) attempts evaluations :
  valid_keyboard ks → aligned attempts evaluations →
  ∃ ks', mergeAll ks attempts evaluations 0 = Some ks'
    ∧ ∀ l, raw_best (ks' !! l)
             (known ks l ++ received l attempts evaluations).
Proof.
  intros Hks Hal.
  destruct (mergeAll_aligned_defined attempts ks evaluations 0) as [ks' Hm].
  { by rewrite drop_0. }
  exists ks'. split; [done|]. intros l.
  rewrite (lookup_mergeAll l _ _ _ _ _ Hm).
  destruct (all_statuses_received l attempts evaluations 0) as [-> Hv].
  { by rewrite drop_0. }
  rewrite drop_0 in *.
  apply foldl_step_verdicts; [|done]. by apply raw_best_known.
Qed.

(** The merge of [handleSubmit] on verdicts. *)
Lemma mergeWord_best (ks : status_map) cells e l :
  valid_keyboard ks → length cells ≤ length e → Forall verdict e →
  raw_best (mergeWord ks cells e 0 !! l) (known ks l ++ received_in l cells e).
Proof.
  intros Hks Hlen He.
  rewrite lookup_mergeWord, statuses_received by lia. rewrite drop_0.
  apply foldl_step_verdicts; [by apply raw_best_known|].
  by apply received_in_verdicts.
Qed.


Lemma mergeAll_idempotent (ks ks' : status_map) attempts evaluations :
  mergeAll ks attempts evaluations 0 = Some ks' →
  mergeAll ks' attempts evaluations 0 = Some ks'.
Proof.
  intros Hm.
  destruct (mergeAll_defined evaluations attempts ks ks' 0) as [ks'' Hm'];
    [by eauto|].
  rewrite Hm'. f_equal. apply map_eq. intros l.
  rewrite (lookup_mergeAll l _ _ _ _ _ Hm'), (lookup_mergeAll l _ _ _ _ _ Hm).
  apply foldl_step_idempotent.
Qed.

Lemma keyboardStatus_reload id net st :
  GameBoard.keyboardStatus (GameBoard.reload id net st)
  = GameBoard.reloaded net (GameBoard.keyboardStatus st).
Proof.
  unfold GameBoard.reload, GameBoard.loadGameState, GameBoard.reloaded.
  destruct (GameBoard.onGame net) as [| |data]; simpl; try done.
  destruct (JS.truthy _); simpl; [done|].
  by destruct (mergeAll _ _ _ _).
Qed.

Lemma reloaded_idempotent net ks : GameBoard.reloaded net (GameBoard.reloaded net ks) = GameBoard.reloaded net ks.
Proof.
  unfold GameBoard.reloaded.
  destruct (GameBoard.onGame net) as [| |data]; try done.
  destruct (JS.truthy _); [done|].
  destruct (mergeAll ks _ _ _) as [ks'|] eqn:Hm; simpl.
  - by rewrite (mergeAll_idempotent _ _ _ _ Hm).
  - by rewrite Hm.
Qed.

Lemma best_rank v pool s : best v pool → s ∈ pool → ∃ s', v = Some s' ∧ rank s ≤ rank s'.
Proof.
  destruct v as [s'|]; simpl.
  - intros [_ Hmax] Hin. eauto.
  - intros -> Hin. by apply elem_of_nil in Hin.
Qed.


(** C9. The keyboard-status merge is idempotent: folding the attempts
    and their evaluations into a keyboard status that was obtained by
    folding the same attempts and evaluations gives that keyboard status
    again; so however many times the game state is loaded again with the
    same answer, the keyboard status stays what the first load made it. *)
Theorem keyboard_merge_idempotent :
  (∀ (ks ks' : status_map) attempts evaluations,
     mergeAll ks attempts evaluations 0 = Some ks' →
     mergeAll ks' attempts evaluations 0 = Some ks')
  ∧ (∀ st id net n,
       GameBoard.keyboardStatus
         (Nat.iter n (GameBoard.reload id net) (GameBoard.reload id net st))
       = GameBoard.keyboardStatus (GameBoard.reload id net st)).
Proof.
  split.
  - intros ks ks' attempts evaluations. apply mergeAll_idempotent.
  - intros st id net n. induction n as [|n IH]; [done|].
    rewrite Nat.iter_succ.
    rewrite keyboardStatus_reload, IH, keyboardStatus_reload.
    apply reloaded_idempotent.
Qed.

Lemma keyboard_merge_idempotent_witness :
  mergeAll (<["E" := Some "correct"]> (<["S" := Some "absent"]> ∅))
           ["SEE"] [["absent"; "present"; "correct"]] 0
  = Some (<["E" := Some "correct"]> (<["S" := Some "absent"]> ∅)).
Proof.
  apply (proj1 keyboard_merge_idempotent ∅).
  vm_compute. reflexivity.
Defined.

(** C2. With verdicts in the evaluations and in the keyboard status,
    [loadGameState] leaves for every letter the verdict of highest rank
    (correct 2, present 1, absent 0) among the one the keyboard status
    held and those the letter received in the loaded attempts, and no
    entry when there is none; so from the empty keyboard status of a new
    game, and from any keyboard status whose entries are verdicts of the
    loaded attempts, an entry is the best verdict the letter ever
    received; an entry never goes down in rank, and a letter that received
    "present" does not end "absent".  The merge of one attempt in
    [handleSubmit] follows the same rule. *)
Theorem keyboard_status_is_best_verdict (st : GameBoard.State) (id : string)
    (net : GameBoard.Replies) (data : GameBoard.GameData) :
  GameBoard.onGame net = Body data →
  JS.truthy (GameBoard.game_error data) = false →
  valid_keyboard (GameBoard.keyboardStatus st) →
  aligned (GameBoard.game_attempts data) (GameBoard.game_evaluations data) →
  let ks := GameBoard.keyboardStatus st in
  let ks' := GameBoard.keyboardStatus (GameBoard.loadGameState st id net).1 in
  let got letter :=
    received letter (GameBoard.game_attempts data)
             (GameBoard.game_evaluations data) in
  valid_keyboard ks'
  ∧ (∀ letter, best (read ks' letter) (known ks letter ++ got letter))
  ∧ (ks = ∅ → ∀ letter, best (read ks' letter) (got letter))
  ∧ (∀ letter, (∀ s, read ks letter = Some s → s ∈ got letter) →
       best (read ks' letter) (got letter))
  ∧ (∀ letter s, read ks letter = Some s →
       ∃ s', read ks' letter = Some s' ∧ rank s ≤ rank s')
  ∧ (∀ letter, "present" ∈ got letter → read ks' letter ≠ Some "absent")
  ∧ (∀ M L (board : LocalBoard.State) reply row,
       LocalBoard.currentPosition board = L →
       LocalBoard.currentRow board = Some row →
       valid_keyboard (LocalBoard.keyboardStatus board) →
       let evaluation :=
         LocalBoard.result_evaluation (LocalBoard.checkWord L reply) in
       length row ≤ length evaluation → Forall verdict evaluation →
       let old := LocalBoard.keyboardStatus board in
       let new :=
         LocalBoard.keyboardStatus (LocalBoard.handleSubmit M L board reply) in
       valid_keyboard new
       ∧ ∀ letter,
           best (read new letter)
                (known old letter ++ received_in letter row evaluation)).
Proof.
  intros Hbody Herr Hvalid Hal. cbv zeta.
  destruct (mergeAll_best _ _ _ Hvalid Hal) as (ks' & Hm & Hbest).
  assert (Hks' : GameBoard.keyboardStatus (GameBoard.loadGameState st id net).1
                 = ks').
  { unfold GameBoard.loadGameState. rewrite Hbody, Herr. simpl.
    by rewrite Hm. }
  rewrite Hks'.
  assert (Hb : ∀ letter, best (read ks' letter)
             (known (GameBoard.keyboardStatus st) letter
              ++ received letter (GameBoard.game_attempts data)
                   (GameBoard.game_evaluations data))).
  { intros letter. rewrite read_lookup. apply raw_best_best, Hbest. }
  split; [by apply (raw_best_valid ks' _ Hbest)|].
  split; [done|].
  split; [|split; [|split; [|split]]].
  - intros Hempty letter. specialize (Hb letter).
    unfold known, read in Hb. rewrite Hempty, lookup_empty in Hb.
    exact Hb.
  - intros letter Hknown. specialize (Hb letter). unfold known in Hb.
    destruct (read (GameBoard.keyboardStatus st) letter) as [s|]; [|done].
    specialize (Hknown s eq_refl).
    destruct (read ks' letter) as [v|]; simpl in *.
    + destruct Hb as [Hin Hmax]. split.
      * apply elem_of_cons in Hin. destruct Hin as [Heq|Hgot]; [by subst|done].
      * intros s' Hs'. apply Hmax. by apply list_elem_of_further.
    + done.
  - intros letter s Hs. eapply best_rank; [apply Hb|].
    unfold known. rewrite Hs. set_solver.
  - intros letter Hin Habs.
    destruct (best_rank _ _ "present" (Hb letter)) as (s' & Hs' & Hle);
      [set_solver|].
    rewrite Habs in Hs'. injection Hs' as <-. vm_compute in Hle. lia.
  - intros M L board reply row Hpos Hrow Hv Hlen Hev.
    assert (Hnew : LocalBoard.keyboardStatus
                     (LocalBoard.handleSubmit M L board reply)
                   = mergeWord (LocalBoard.keyboardStatus board) row
                       (LocalBoard.result_evaluation
                          (LocalBoard.checkWord L reply)) 0).
    { unfold LocalBoard.handleSubmit.
      rewrite Hpos, Nat.eqb_refl, Hrow. simpl.
      destruct (LocalBoard.correct _); [done|].
      by destruct (_ =? _)%Z. }
    rewrite Hnew.
    assert (Hraw := λ l, mergeWord_best _ row _ l Hv Hlen Hev).
    split; [by apply (raw_best_valid _ _ Hraw)|].
    intros letter. rewrite read_lookup. apply raw_best_best, Hraw.
Qed.

Lemma keyboard_status_is_best_verdict_witness :
  best (read (GameBoard.keyboardStatus
                (GameBoard.loadGameState GameBoard.started_board "g1"
                   GameBoard.erase_replies).1) "E")
       (received "E" ["ERASE"]
          [["present"; "absent"; "absent"; "present"; "present"]]).
Proof.
  destruct (keyboard_status_is_best_verdict GameBoard.started_board "g1"
              GameBoard.erase_replies GameBoard.erase_game)
    as (_ & _ & H & _).
  - reflexivity.
  - reflexivity.
  - intros l v Hl. simpl in Hl. by rewrite lookup_empty in Hl.
  - constructor; [|constructor].
    split; [reflexivity|].
    repeat (constructor; [unfold verdict; auto|]). constructor.
  - exact (H eq_refl "E").
Defined.

End KeyboardFacts.

(** ** The evaluator *)
Module EvaluatorFacts.
Import Evaluator.

Lemma ascii_eqb_decide (a b : ascii) : Ascii.eqb a b = bool_decide (a = b).
Proof.
  destruct (Ascii.eqb_spec a b);
    [by rewrite bool_decide_eq_true_2|by rewrite bool_decide_eq_false_2].
Qed.

Lemma take_one_same p c : take_one p c c = pred (p c).
Proof. unfold take_one. by rewrite Ascii.eqb_refl. Qed.

Lemma take_one_other p c x : x ≠ c → take_one p c x = p x.
Proof. unfold take_one. intros H. by destruct (Ascii.eqb_spec x c). Qed.

Lemma frequency_occurrences t c : frequency t c = occurrences c t.
Proof.
  induction t as [|x t IH]; simpl; [done|].
  unfold add_one. fold (frequency t). rewrite IH.
  destruct (Ascii.eqb_spec c x) as [->|Hne].
  - by rewrite decide_True.
  - by rewrite decide_False.
Qed.

Lemma pass1_spec g :
  ∀ t p marks p',
    length g = length t → pass1 g t p = (marks, p') →
    length marks = length g
    ∧ marks_ok marks
    ∧ (∀ i, marks !! i = Some (Some Correct)
            ↔ ∃ c, g !! i = Some c ∧ t !! i = Some c)
    ∧ (∀ c, p' c = p c - marked c g marks)
    ∧ (∀ c, marked c g marks ≤ occurrences c t)
    ∧ (∀ c, marked c g marks ≤ occurrences c g).
Proof.
  induction g as [|x g IH]; intros [|y t] p marks p' Hlen; simpl; try done.
  - intros [= <- <-]. repeat split; try done; try (intros; simpl; lia).
    + constructor.
    + intros (c & H & _). done.
  - simpl in Hlen.
    destruct (Ascii.eqb_spec x y) as [->|Hne].
    + destruct (pass1 g t (take_one p y)) as [ms q] eqn:Hp.
      intros [= <- <-].
      destruct (IH t _ _ _ ltac:(lia) Hp) as (H1 & H2 & H3 & H4 & H5 & H6).
      repeat split.
      * simpl; lia.
      * constructor; auto.
      * destruct i; simpl; [by eauto|]. by apply H3.
      * destruct i; simpl; [by eauto|]. by apply H3.
      * intros c. rewrite H4. simpl.
        destruct (decide (y = c)) as [->|Hc].
        -- rewrite decide_True by done. rewrite take_one_same. lia.
        -- rewrite decide_False by tauto. rewrite take_one_other by done. lia.
      * intros c. simpl. specialize (H5 c).
        destruct (decide (y = c)) as [->|Hc].
        -- rewrite decide_True by done. lia.
        -- rewrite decide_False by tauto. lia.
      * intros c. simpl. specialize (H6 c).
        destruct (decide (y = c)) as [->|Hc].
        -- rewrite decide_True by done. lia.
        -- rewrite decide_False by tauto. lia.
    + destruct (pass1 g t p) as [ms q] eqn:Hp.
      intros [= <- <-].
      destruct (IH t _ _ _ ltac:(lia) Hp) as (H1 & H2 & H3 & H4 & H5 & H6).
      repeat split.
      * simpl; lia.
      * constructor; auto.
      * destruct i; simpl; [done|]. by apply H3.
      * destruct i; simpl; [|by apply H3].
        intros (c & [= ->] & [= ->]). done.
      * intros c. rewrite H4. simpl.
        rewrite (decide_False (P := x = c ∧ None = Some Correct)) by (intros [_ ?]; done). lia.
      * intros c. simpl. specialize (H5 c).
        rewrite (decide_False (P := x = c ∧ None = Some Correct)) by (intros [_ ?]; done).
        destruct (decide (y = c)); lia.
      * intros c. simpl. specialize (H6 c).
        rewrite (decide_False (P := x = c ∧ None = Some Correct)) by (intros [_ ?]; done).
        destruct (decide (x = c)); lia.
Qed.


Lemma marked_le_occurrences c g :
  ∀ marks, marked c g marks ≤ occurrences c g.
Proof.
  induction g as [|x g IH]; intros [|m marks]; simpl; try lia.
  specialize (IH marks).
  destruct (decide (x = c ∧ m = Some Correct)) as [[-> _]|];
    destruct (decide (_ = c)); try lia. done.
Qed.

Ltac case_counts :=
  repeat match goal with
    | |- context [decide (?a = ?b ∧ ?v = ?w)] =>
        destruct (decide (a = b ∧ v = w)) as [[? ?]|?]
    | |- context [decide (?a = ?b)] => destruct (decide (a = b))
    end.

Ltac pool_cases c x :=
  destruct (decide (c = x)) as [->|?];
  [rewrite ?take_one_same | rewrite ?take_one_other by done];
  case_counts; subst; try done; try lia; try tauto; try congruence.

Lemma pass2_spec g :
  ∀ marks p,
    length marks = length g → marks_ok marks →
    let vs := pass2 g marks p in
    length vs = length g
    ∧ (∀ i, vs !! i = Some Correct ↔ marks !! i = Some (Some Correct))
    ∧ (∀ i c, g !! i = Some c → marks !! i = Some None →
         (vs !! i = Some Present
          ↔ count_verdict c Present (take i g) (take i vs) < p c)
         ∧ (vs !! i = Some Present ∨ vs !! i = Some Absent))
    ∧ (∀ c, count_verdict c Correct g vs = marked c g marks)
    ∧ (∀ c, count_verdict c Present g vs
            = min (occurrences c g - marked c g marks) (p c)).
Proof.
  induction g as [|x g IH]; intros [|m marks] p Hlen Hok; simpl in *; try done.
  apply Forall_cons in Hok as [Hm Hok].
  destruct Hm as [->| ->].
  - destruct (Nat.ltb_spec 0 (p x)) as [Hpos|Hzero].
    + destruct (IH marks (take_one p x) ltac:(lia) Hok)
        as (H1 & H2 & H3 & H4 & H5).
      repeat split.
      * simpl; lia.
      * destruct i; simpl; [done|]. by apply H2.
      * destruct i; simpl; [done|]. by apply H2.
      * destruct i; simpl.
        -- intros _. injection H as ->. lia.
        -- intros Hp. destruct (H3 i c H H0) as [Hiff _].
           apply Hiff in Hp. revert Hp. pool_cases c x.
      * destruct i; simpl; [done|].
        intros Hp. destruct (H3 i c H H0) as [Hiff _]. apply Hiff.
        revert Hp. pool_cases c x.
      * destruct i; simpl; [by left|]. by apply (H3 i c).
      * intros c. simpl. rewrite H4. case_counts; try done; lia.
      * intros c. simpl. rewrite H5.
        pose proof (marked_le_occurrences c g marks).
        pool_cases c x.
    + destruct (IH marks p ltac:(lia) Hok) as (H1 & H2 & H3 & H4 & H5).
      repeat split.
      * simpl; lia.
      * destruct i; simpl; [done|]. by apply H2.
      * destruct i; simpl; [done|]. by apply H2.
      * destruct i; simpl; [done|].
        intros Hp. destruct (H3 i c H H0) as [Hiff _].
        apply Hiff in Hp. revert Hp. case_counts; try done; lia.
      * destruct i; simpl.
        -- injection H as ->. lia.
        -- intros Hp. destruct (H3 i c H H0) as [Hiff _]. apply Hiff.
           revert Hp. case_counts; try done; lia.
      * destruct i; simpl; [by right|]. by apply (H3 i c).
      * intros c. simpl. rewrite H4. case_counts; try done; lia.
      * intros c. simpl. rewrite H5.
        pose proof (marked_le_occurrences c g marks).
        case_counts; subst; try done; lia.
  - destruct (IH marks p ltac:(lia) Hok) as (H1 & H2 & H3 & H4 & H5).
    repeat split.
    + simpl; lia.
    + destruct i; simpl; [done|]. by apply H2.
    + destruct i; simpl; [done|]. by apply H2.
    + destruct i; simpl; [done|].
      intros Hp. destruct (H3 i c H H0) as [Hiff _].
      apply Hiff in Hp. revert Hp. case_counts; try done; lia.
    + destruct i; simpl; [done|].
      intros Hp. destruct (H3 i c H H0) as [Hiff _]. apply Hiff.
      revert Hp. case_counts; try done; lia.
    + destruct i; simpl; [done|]. by apply (H3 i c).
    + intros c. simpl. rewrite H4. case_counts; try done; try lia; tauto.
    + intros c. simpl. rewrite H5.
      pose proof (marked_le_occurrences c g marks).
      case_counts; subst; try done; try lia; tauto.
Qed.

(** Counting over a longer prefix counts at least as much. *)
Lemma count_verdict_take_mono c v g :
  ∀ vs i j, i ≤ j →
    count_verdict c v (take i g) (take i vs)
    ≤ count_verdict c v (take j g) (take j vs).
Proof.
  induction g as [|x g IH]; intros vs i j Hij.
  { by rewrite !take_nil. }
  destruct vs as [|y vs].
  { rewrite !take_nil. destruct (take i (x :: g)); simpl; lia. }
  destruct i; [simpl; lia|]. destruct j; [lia|]. simpl.
  specialize (IH vs i j ltac:(lia)). lia.
Qed.


Lemma marks_ok_lookup marks i m :
  marks_ok marks → marks !! i = Some m → m = None ∨ m = Some Correct.
Proof. intros Hok Hi. by apply (Forall_lookup_1 _ _ _ _ Hok Hi). Qed.


(** The examples of the specification. *)
Example evaluate_eeeee_abcde :
  evaluate (word "EEEEE") (word "ABCDE")
  = inr [Absent; Absent; Absent; Absent; Correct].
Proof. reflexivity. Qed.

Example evaluate_crane_crane :
  evaluate (word "crane") (word "CRANE")
  = inr [Correct; Correct; Correct; Correct; Correct].
Proof. reflexivity. Qed.

Example evaluate_length_mismatch :
  evaluate (word "CAT") (word "CRANE") = inl LengthMismatch.
Proof. reflexivity. Qed.

(** C1. For a guess and a target of equal length the evaluator returns the
    two-pass verdicts: a position is Correct iff the (case-normalized)
    guess and target agree there; any other position is Present iff its
    letter still has remaining count once the Correct matches of that
    letter and its earlier Present matches are deducted from the target's
    count, and Absent otherwise.  So each letter is credited
    min(occurrences in guess, occurrences in target) times, a credited
    position is never preceded by an uncredited one of the same letter, and
    guess ERASE against target SPEED gets Present, Absent, Absent, Present,
    Present. *)
Theorem evaluate_two_pass (guess target : Word) :
  length guess = length target →
  ∃ vs, evaluate guess target = inr vs
    ∧ length vs = length guess
    ∧ let g := normalize guess in
      let t := normalize target in
      (∀ i, vs !! i = Some Correct ↔ ∃ c, g !! i = Some c ∧ t !! i = Some c)
      ∧ (∀ i c, g !! i = Some c → t !! i ≠ Some c →
           (vs !! i = Some Present ↔ 0 < remaining c g t vs i)
           ∧ (vs !! i = Some Absent ↔ remaining c g t vs i = 0))
      ∧ (∀ c, count_verdict c Correct g vs + count_verdict c Present g vs
              = min (occurrences c g) (occurrences c t))
      ∧ (∀ i j c, i < j → g !! i = Some c → g !! j = Some c →
           vs !! j = Some Present →
           vs !! i = Some Correct ∨ vs !! i = Some Present)
      ∧ evaluate (word "ERASE") (word "SPEED")
        = inr [Present; Absent; Absent; Present; Present].
Proof.
  intros Hlen. unfold evaluate. rewrite Hlen, Nat.eqb_refl.
  set (g := normalize guess). set (t := normalize target).
  assert (Hgt : length g = length t).
  { unfold g, t, normalize. by rewrite !length_fmap. }
  assert (Hg : length g = length guess).
  { unfold g, normalize. by rewrite length_fmap. }
  destruct (pass1 g t (frequency t)) as [marks p] eqn:Hp1.
  destruct (pass1_spec g t _ _ _ Hgt Hp1) as (M1 & M2 & M3 & M4 & M5 & M6).
  destruct (pass2_spec g marks p M1 M2) as (V1 & V2 & V3 & V4 & V5).
  set (vs := pass2 g marks p) in *.
  assert (Hunmarked : ∀ i c, g !! i = Some c → t !! i ≠ Some c →
                             marks !! i = Some None).
  { intros i c Hi Hne.
    destruct (marks !! i) as [m|] eqn:Hm.
    - destruct (marks_ok_lookup _ _ _ M2 Hm) as [->| ->]; [done|].
      apply M3 in Hm as (c' & Hc1 & Hc2).
      congruence.
    - apply lookup_ge_None in Hm. apply lookup_lt_Some in Hi. lia. }
  assert (Hrem : ∀ i c,
            0 < remaining c g t vs i
            ↔ count_verdict c Present (take i g) (take i vs) < p c).
  { intros i c. unfold remaining. rewrite V4, M4, frequency_occurrences. lia. }
  exists vs. split; [done|]. split; [lia|]. simpl.
  split; [|split; [|split; [|split]]].
  - intros i. rewrite V2. apply M3.
  - intros i c Hi Hne.
    destruct (V3 i c Hi (Hunmarked i c Hi Hne)) as [Hiff Hor].
    split; [by rewrite Hrem|].
    split.
    + intros Ha. destruct (Nat.eq_dec (remaining c g t vs i) 0); [done|].
      assert (vs !! i = Some Present) by (apply Hiff, Hrem; lia). congruence.
    + intros Hz. destruct Hor as [Hpr|]; [|done].
      apply Hiff, Hrem in Hpr. lia.
  - intros c. rewrite V4, V5, M4, frequency_occurrences.
    specialize (M5 c). specialize (M6 c). lia.
  - intros i j c Hij Hi Hj Hpr.
    destruct (decide (t !! i = Some c)) as [Hti|Hti].
    { left. apply V2, M3. eauto. }
    right.
    assert (Hmj : marks !! j = Some None).
    { destruct (marks !! j) as [m|] eqn:Hm.
      - destruct (marks_ok_lookup _ _ _ M2 Hm) as [->| ->]; [done|].
        apply V2 in Hm. congruence.
      - apply lookup_ge_None in Hm. apply lookup_lt_Some in Hj. lia. }
    apply (V3 i c Hi (Hunmarked i c Hi Hti)).
    apply (V3 j c Hj Hmj) in Hpr.
    pose proof (count_verdict_take_mono c Present g vs i j ltac:(lia)). lia.
  - reflexivity.
Qed.

(** The witness: guess ERASE against target SPEED. *)
Lemma evaluate_two_pass_witness :
  ∃ vs, evaluate (word "ERASE") (word "SPEED") = inr vs
    ∧ length vs = 5.
Proof.
  destruct (evaluate_two_pass (word "ERASE") (word "SPEED") eq_refl)
    as (vs & H1 & H2 & _).
  by exists vs.
Defined.


End EvaluatorFacts.

(** ** The stand-alone board *)
Module LocalBoardFacts.
Import JSFacts LocalBoard.




(** Once the game is over no key changes the state. *)
Lemma over_ignores M L st key reply :
  gameStatus st ≠ Playing → handleKeyPress M L st key reply = st.
Proof.
  intros H. unfold handleKeyPress. by rewrite bool_decide_eq_false_2.
Qed.












End LocalBoardFacts.

(** ** The keyboard status of the stand-alone board *)
Module LocalKeyboardFacts.
Import JSFacts Keyboard KeyboardFacts LocalBoard LocalBoardFacts.










End LocalKeyboardFacts.

(** ** The board that plays against the server *)
Module GameBoardFacts.
Import JSFacts GameBoard.

Lemma upper_ascii_upper c :
  JS.is_lower c || JS.is_upper c = true → JS.is_upper (JS.upper_ascii c) = true.
Proof.
  destruct c as [[] [] [] [] [] [] [] []]; vm_compute; congruence.
Qed.

Lemma toUpperCase_letter key :
  JS.is_letter_key key = true → upper_letter (JS.toUpperCase key).
Proof.
  destruct key as [|c [|c' rest]]; simpl; try done.
  intros H. exists (JS.upper_ascii c). split; [done|].
  by apply upper_ascii_upper.
Qed.

Lemma findIndex_from_letters (L : nat) letters :
  ∀ i : Z, Forall upper_letter letters →
    JS.findIndex_from (λ letter, JS.seq letter "")
      ((Some <$> letters) ++ JS.fill L "") i
    = if decide (L = 0) then (-1)%Z else (i + Z.of_nat (length letters))%Z.
Proof.
  induction letters as [|s letters IH]; intros i Hl; simpl.
  - destruct L; simpl; [done|]. lia.
  - apply Forall_cons in Hl as [(c & -> & _) Hl]. simpl.
    rewrite IH by done. destruct (decide (L = 0)); lia.
Qed.

Lemma findIndex_buffer L letters :
  length letters ≤ L → Forall upper_letter letters →
  JS.findIndex (λ letter, JS.seq letter "") (buffer L letters)
  = if decide (length letters = L) then (-1)%Z
    else Z.of_nat (length letters).
Proof.
  intros Hlen Hl. unfold JS.findIndex, buffer.
  rewrite findIndex_from_letters by done.
  destruct (decide (L - length letters = 0)), (decide (length letters = L));
    lia.
Qed.

Lemma length_buffer L letters :
  length letters ≤ L → length (buffer L letters) = L.
Proof.
  intros H. unfold buffer, JS.fill.
  rewrite length_app, length_fmap, length_replicate. lia.
Qed.

(** Writing a letter into the first empty cell. *)
Lemma set_buffer_letter L letters s :
  length letters < L →
  JS.set (buffer L letters) (length letters) s = buffer L (letters ++ [s]).
Proof.
  intros Hlt. unfold JS.set.
  rewrite length_buffer by lia. rewrite decide_True by done.
  unfold buffer, JS.fill. rewrite length_app. simpl.
  replace (L - length letters) with (S (L - (length letters + 1))) by lia.
  simpl. rewrite insert_app_r_alt by (rewrite length_fmap; lia).
  rewrite length_fmap, Nat.sub_diag. simpl.
  by rewrite fmap_app, <- app_assoc.
Qed.

(** Emptying the last filled cell. *)
Lemma set_buffer_empty L letters s :
  length (letters ++ [s]) ≤ L →
  JS.set (buffer L (letters ++ [s])) (length letters) ""
  = buffer L letters.
Proof.
  rewrite length_app. simpl. intros Hlt. unfold JS.set.
  rewrite length_buffer by (rewrite length_app; simpl; lia).
  rewrite decide_True by lia.
  unfold buffer, JS.fill. rewrite length_app. simpl.
  replace (L - length letters) with (S (L - (length letters + 1))) by lia.
  simpl. rewrite fmap_app, <- app_assoc. simpl.
  rewrite insert_app_r_alt by (rewrite length_fmap; lia).
  by rewrite length_fmap, Nat.sub_diag.
Qed.

(** [submitGuess] leaves the buffer as it is or empties it. *)
Lemma submitGuess_buffer L st word net :
  currentAttempt (submitGuess L st word net).1 = currentAttempt st
  ∨ currentAttempt (submitGuess L st word net).1 = JS.fill L "".
Proof.
  unfold submitGuess.
  destruct (gameId st) as [id|]; [|by left].
  destruct (_ || _); [by left|].
  destruct (onGuess net) as [| |data]; [by left|by left|].
  destruct (JS.truthy (guess_error data)); [by left|].
  destruct (loadGameState _ id net) as [st2 sent2].
  unfold fetchStats.
  destruct (terminal (guess_status data)); simpl; [|by right].
  destruct (onStats net) as [|response]; simpl; [by right|].
  destruct (Api.success response); by right.
Qed.


Lemma buffer_nil L : buffer L [] = JS.fill L "".
Proof. unfold buffer. simpl. by rewrite Nat.sub_0_r. Qed.

Lemma well_formed_buffer L letters :
  length letters ≤ L → Forall upper_letter letters →
  well_formed L (buffer L letters).
Proof. intros. by exists letters. Qed.


(** C8. Whatever key [handleKeyPress] handles, the current-attempt buffer
    keeps [wordLength] cells: upper-case letters first, empty cells after
    them.  While the board takes keys, a letter key puts its upper-case
    letter into the first empty cell, or changes nothing when no cell is
    empty; Backspace empties the last filled cell, or changes nothing when
    none is filled; any key that is neither Enter nor Backspace nor a
    letter changes nothing at all, and so does every key while the board
    takes none. *)
Theorem handleKeyPress_buffer (L : nat) (st : State) (key : string)
    (net : Replies) (letters : list string) :
  length letters ≤ L → Forall upper_letter letters →
  currentAttempt st = buffer L letters →
  let st' := (handleKeyPress L st key net).1 in
  well_formed L (currentAttempt st')
  ∧ length (currentAttempt st') = L
  ∧ (active st → JS.is_letter_key key = true →
       currentAttempt st'
       = if decide (length letters < L)
         then buffer L (letters ++ [JS.toUpperCase key])
         else buffer L letters)
  ∧ (active st → key = "Backspace" →
       currentAttempt st' = buffer L (removelast letters))
  ∧ (key ≠ "Enter" → key ≠ "Backspace" → JS.is_letter_key key = false →
       handleKeyPress L st key net = (st, []))
  ∧ (¬ active st → handleKeyPress L st key net = (st, [])).
Proof.
  intros Hlen Hl Hbuf. simpl.
  assert (Hinactive : ¬ active st → handleKeyPress L st key net = (st, [])).
  { unfold active, handleKeyPress. intros Hna.
    destruct (decide (gameStatus st = Playing)) as [Hp|Hp].
    - rewrite bool_decide_eq_true_2 by done. simpl.
      destruct (isLoading st); [done|]. tauto.
    - by rewrite bool_decide_eq_false_2. }
  assert (Hletter : active st → JS.is_letter_key key = true →
            currentAttempt (handleKeyPress L st key net).1
            = if decide (length letters < L)
              then buffer L (letters ++ [JS.toUpperCase key])
              else buffer L letters).
  { intros [Hp Hld] Hkey. unfold handleKeyPress.
    destruct (letter_key_not_special key Hkey) as [-> ->].
    rewrite Hp, Hld, bool_decide_eq_true_2, Hkey by done. simpl.
    rewrite Hbuf, findIndex_buffer by done.
    destruct (decide (length letters = L)) as [Heq|Hne]; simpl.
    - rewrite decide_False by lia. done.
    - rewrite decide_True by lia.
      destruct (Z.eqb_spec (Z.of_nat (length letters)) (-1)); [lia|]. simpl.
      rewrite Nat2Z.id. apply set_buffer_letter. lia. }
  assert (Hback : active st → key = "Backspace" →
            currentAttempt (handleKeyPress L st key net).1
            = buffer L (removelast letters)).
  { intros [Hp Hld] ->. unfold handleKeyPress.
    rewrite Hp, Hld, bool_decide_eq_true_2 by done. simpl.
    rewrite Hbuf, findIndex_buffer by done.
    destruct letters as [|s letters _] using rev_ind.
    - simpl. destruct (decide (0 = L)) as [<-|Hne]; simpl; [done|].
      by rewrite <- Hbuf.
    - rewrite removelast_last. rewrite length_app in *. simpl in *.
      apply Forall_app in Hl as [Hl _].
      assert (Hidx : Z.to_nat (Z.of_nat L - 1) = length letters
                     → JS.set (buffer L (letters ++ [s]))
                              (Z.to_nat (Z.of_nat L - 1)) ""
                       = buffer L letters).
      { intros ->. apply set_buffer_empty. rewrite length_app. simpl. lia. }
      destruct (decide (length letters + 1 = L)) as [Heq|Hne]; simpl.
      + destruct (Z.leb_spec 0 (Z.of_nat L - 1)); [|lia]. simpl.
        apply Hidx. lia.
      + destruct (Z.eqb_spec (Z.of_nat (length letters + 1)) (-1)); [lia|].
        destruct (Z.leb_spec 0 (Z.of_nat (length letters + 1) - 1)); [|lia].
        simpl.
        replace (Z.to_nat (Z.of_nat (length letters + 1) - 1))
          with (length letters) by lia.
        apply set_buffer_empty. rewrite length_app. simpl. lia. }
  assert (Hother : key ≠ "Enter" → key ≠ "Backspace" →
            JS.is_letter_key key = false →
            handleKeyPress L st key net = (st, [])).
  { intros HE HB Hk. unfold handleKeyPress.
    destruct (negb _ || _); [done|].
    destruct (String.eqb_spec key "Enter"); [done|].
    destruct (String.eqb_spec key "Backspace"); [done|].
    by rewrite Hk. }
  assert (Hwf : well_formed L (currentAttempt (handleKeyPress L st key net).1)).
  { destruct (decide (active st)) as [Hact|Hna];
      [|rewrite Hinactive by done; simpl; rewrite Hbuf;
        by apply well_formed_buffer].
    destruct (String.eqb_spec key "Enter") as [->|HE].
    { destruct Hact as [Hp Hld]. unfold handleKeyPress.
      rewrite Hp, Hld, bool_decide_eq_true_2 by done. simpl.
      destruct (_ =? L);
        [|simpl; rewrite Hbuf; by apply well_formed_buffer].
      destruct (submitGuess_buffer L st (JS.join (currentAttempt st)) net)
        as [-> | ->].
      - rewrite Hbuf. by apply well_formed_buffer.
      - rewrite <- buffer_nil. apply well_formed_buffer; [simpl; lia|done]. }
    destruct (String.eqb_spec key "Backspace") as [->|HB].
    { rewrite Hback by done. apply well_formed_buffer.
      - destruct letters as [|s letters _] using rev_ind; [simpl; lia|].
        rewrite removelast_last. rewrite length_app in Hlen. lia.
      - destruct letters as [|s letters _] using rev_ind; [done|].
        rewrite removelast_last. by apply Forall_app in Hl as [Hl _]. }
    destruct (JS.is_letter_key key) eqn:Hk.
    - rewrite Hletter by done.
      destruct (decide (length letters < L)); apply well_formed_buffer;
        try done.
      + rewrite length_app. simpl. lia.
      + apply Forall_app. split; [done|].
        apply Forall_singleton. by apply toUpperCase_letter.
    - rewrite Hother by done. simpl. rewrite Hbuf.
      by apply well_formed_buffer. }
  split; [done|]. split; [|done].
  destruct Hwf as (letters' & Hlen' & _ & ->). by apply length_buffer.
Qed.


(** Typing c, a, then Backspace, on a board of five letters. *)
Example typing_c_a_backspace :
  let press st key := (handleKeyPress 5 st key no_replies).1 in
  currentAttempt (press (press started_board "c") "a")
  = [Some "C"; Some "A"; Some ""; Some ""; Some ""]
  ∧ currentAttempt (press (press (press started_board "c") "a") "Backspace")
    = [Some "C"; Some ""; Some ""; Some ""; Some ""]
  ∧ press started_board "Shift" = started_board.
Proof. repeat split; reflexivity. Qed.

Lemma handleKeyPress_buffer_witness :
  currentAttempt (handleKeyPress 5 started_board "a" no_replies).1
  = buffer 5 ["A"].
Proof.
  destruct (handleKeyPress_buffer 5 started_board "a" no_replies [])
    as (_ & _ & H & _).
  - simpl. lia.
  - constructor.
  - reflexivity.
  - exact (H (conj eq_refl eq_refl) eq_refl).
Defined.

(** C4, as stated, fails: on a won session [submitGuess] reports no
    failure at all. *)
Lemma submitGuess_terminal_reports_nothing :
  ¬ (∀ st word net, gameStatus st ≠ Playing →
       ∃ message, error (submitGuess 5 st word net).1 = Some message).
Proof.
  intros H.
  destruct (H won_board "SLATE" no_replies ltac:(done)) as [message Hm].
  vm_compute in Hm. discriminate.
Qed.

(** C4, amended. On a session that is won or lost, [submitGuess] and every
    key press are ignored: no request is sent, no error is reported, and
    the whole state of the board, with its attempts, evaluations and
    status, is what it was. *)
Theorem terminal_session_ignores_guesses (L : nat) (st : State)
    (word key : string) (net : Replies) :
  gameStatus st ≠ Playing →
  submitGuess L st word net = (st, [])
  ∧ handleKeyPress L st key net = (st, []).
Proof.
  intros H. unfold submitGuess, handleKeyPress.
  rewrite bool_decide_eq_false_2 by done. simpl.
  split; [|done].
  destruct (gameId st); [|done].
  by rewrite !orb_true_r.
Qed.

Lemma terminal_session_ignores_guesses_witness :
  submitGuess 5 won_board "SLATE" no_replies = (won_board, [])
  ∧ handleKeyPress 5 won_board "Enter" no_replies = (won_board, []).
Proof.
  apply (terminal_session_ignores_guesses 5 won_board "SLATE" "Enter"
           no_replies).
  discriminate.
Defined.

(** C7. [submitGuess] asks for the statistics exactly when the server
    accepted the guess and answered with status won or lost: a call that
    is turned away, a failed request, an error answer and an answer with
    status playing all ask for none; and the statistics are asked for at
    most once. *)
Theorem stats_requested_on_terminal_answer (L : nat) (st : State)
    (word : string) (net : Replies) :
  (StatsRequest ∈ (submitGuess L st word net).2
   ↔ ∃ data, accepted L st word net data
       ∧ (guess_status data = Won ∨ guess_status data = Lost))
  ∧ (∀ data, accepted L st word net data → guess_status data = Playing →
       StatsRequest ∉ (submitGuess L st word net).2)
  ∧ length (filter (λ r, r = StatsRequest) (submitGuess L st word net).2) ≤ 1
  ∧ (∀ data game,
       accepted L st word net data →
       onGame net = Body game → JS.truthy (game_error game) = false →
       game_status game = guess_status data →
       let st' := (submitGuess L st word net).1 in
       gameStatus st' = guess_status data
       ∧ (StatsRequest ∈ (submitGuess L st word net).2
          ↔ gameStatus st' = Won ∨ gameStatus st' = Lost)).
Proof.
  assert (Hiff : StatsRequest ∈ (submitGuess L st word net).2
   ↔ ∃ data, accepted L st word net data
       ∧ (guess_status data = Won ∨ guess_status data = Lost)).
  { unfold accepted, submitGuess.
    destruct (gameId st) as [id|];
      [|split; [by intros ?%elem_of_nil|by intros (? & ((? & ? & ?) & _) & _)]].
    destruct (JS.truthy (Some id)) eqn:Hid; simpl;
      [|split; [by intros ?%elem_of_nil|
                intros (? & ((? & [= <-] & ?) & _) & _);
                simpl in *; congruence]].
    destruct (Nat.eqb_spec (String.length word) L) as [Hlen|Hlen]; simpl;
      [|split; [by intros ?%elem_of_nil|by intros (? & (_ & ? & _) & _)]].
    destruct (decide (gameStatus st = Playing)) as [Hp|Hp];
      [rewrite bool_decide_eq_true_2 by done
      |rewrite bool_decide_eq_false_2 by done]; simpl;
      [|split; [by intros ?%elem_of_nil|by intros (? & (_ & _ & ? & _) & _)]].
    destruct (onGuess net) as [| |data]; simpl;
      [split; [by intros [=]%list_elem_of_singleton
              |by intros (? & (_ & _ & _ & ? & _) & _)]..|].
    destruct (JS.truthy (guess_error data)) eqn:He; simpl.
    { split; [by intros [=]%list_elem_of_singleton|].
      intros (? & (_ & _ & _ & [= <-] & ?) & _). congruence. }
    unfold loadGameState, fetchStats, terminal. simpl.
    destruct (guess_status data) eqn:Hs; simpl.
    - split.
      + intros [[=]|[[=]|[]%elem_of_nil]%elem_of_cons]%elem_of_cons.
      + intros (? & (_ & _ & _ & [= <-] & _) & [?|?]); congruence.
    - split; [|intros _; set_solver].
      intros _. exists data. rewrite Hs. eauto 10.
    - split; [|intros _; set_solver].
      intros _. exists data. rewrite Hs. eauto 10. }
  split; [done|]. split; [|split].
  - intros data Hacc Hs Hin. apply Hiff in Hin as (data' & Hacc' & Hor).
    destruct Hacc as (_ & _ & _ & H1 & _), Hacc' as (_ & _ & _ & H2 & _).
    rewrite H1 in H2. injection H2 as <-. destruct Hor; congruence.
  - unfold submitGuess.
    destruct (gameId st) as [id|]; [|simpl; lia].
    destruct (_ || _); [simpl; lia|].
    destruct (onGuess net) as [| |data]; simpl; try lia.
    destruct (JS.truthy (guess_error data)); simpl; [lia|].
    unfold fetchStats. destruct (terminal (guess_status data)); simpl; lia.
  - intros data game Hacc Hgame Herr Hsame. cbv zeta.
    assert (Hst : gameStatus (submitGuess L st word net).1
                  = guess_status data).
    { destruct Hacc as ((id & Hid & Htr) & Hlen & Hp & Hbody & Hne).
      unfold submitGuess.
      rewrite Hid, Htr, Hlen, Nat.eqb_refl, Hp, bool_decide_eq_true_2 by done.
      simpl. rewrite Hbody, Hne.
      unfold loadGameState, fetchStats. rewrite Hgame, Herr. simpl.
      destruct (Keyboard.mergeAll _ _ _ _);
        destruct (terminal (guess_status data)); simpl; try done;
        destruct (onStats net) as [|response]; simpl; try done;
        by destruct (Api.success response). }
    split; [done|]. rewrite Hst, Hiff. split.
    + intros (data' & Hacc' & Hor).
      destruct Hacc as (_ & _ & _ & H1 & _), Hacc' as (_ & _ & _ & H2 & _).
      rewrite H1 in H2. by injection H2 as <-.
    + intros Hor. eauto.
Qed.

Lemma string_length_app (a b : string) :
  String.length (a ++ b)%string = String.length a + String.length b.
Proof. induction a as [|c a IH]; simpl; [done|]. by rewrite IH. Qed.

Lemma join_fill n : JS.join (JS.fill n "") = "".
Proof. induction n as [|n IH]; simpl; [done|]. done. Qed.

Lemma length_join_buffer L letters :
  Forall upper_letter letters →
  String.length (JS.join (buffer L letters)) = length letters.
Proof.
  intros Hl. unfold buffer. generalize (L - length letters). intros n.
  induction Hl as [|s letters (c & -> & _) _ IH].
  - simpl. by rewrite join_fill.
  - rewrite fmap_cons, <- app_comm_cons. cbn [JS.join].
    rewrite string_length_app, IH. done.
Qed.

(** X3. A guess that has not the length of the word is not sent: the board
    turns away a word of another length, and Enter on a buffer that is
    not full does nothing; the state stays what it was. *)
Theorem incomplete_guess_not_sent (L : nat) (st : State) (word : string)
    (net : Replies) (letters : list string) :
  (String.length word ≠ L → submitGuess L st word net = (st, []))
  ∧ (length letters < L → Forall upper_letter letters →
     currentAttempt st = buffer L letters →
     handleKeyPress L st "Enter" net = (st, [])).
Proof.
  split.
  - intros Hlen. unfold submitGuess.
    destruct (gameId st); [|done].
    destruct (Nat.eqb_spec (String.length word) L); [done|].
    simpl. by rewrite orb_true_r.
  - intros Hlt Hl Hbuf. unfold handleKeyPress.
    destruct (negb _ || _); [done|]. simpl.
    rewrite Hbuf, length_join_buffer by done.
    destruct (Nat.eqb_spec (length letters) L); [lia|done].
Qed.

Lemma incomplete_guess_not_sent_witness :
  submitGuess 5 started_board "CAT" crane_replies = (started_board, []).
Proof.
  apply (proj1 (incomplete_guess_not_sent 5 started_board "CAT"
                  crane_replies [])).
  simpl. lia.
Defined.

Lemma stats_requested_on_terminal_answer_witness :
  StatsRequest ∈ (submitGuess 5 started_board "CRANE" crane_replies).2.
Proof.
  apply (proj2 (proj1 (stats_requested_on_terminal_answer 5 started_board
                         "CRANE" crane_replies))).
  exists crane_guess. split; [|by left].
  unfold accepted. repeat split; try reflexivity. by exists "g1".
Defined.

End GameBoardFacts.

(** ** The session state machine *)
Module SessionFacts.
Import Evaluator EvaluatorFacts Session.

Lemma upper_ascii_idempotent c :
  JS.upper_ascii (JS.upper_ascii c) = JS.upper_ascii c.
Proof. destruct c as [[] [] [] [] [] [] [] []]; reflexivity. Qed.

Lemma normalize_idempotent w : normalize (normalize w) = normalize w.
Proof.
  unfold normalize. rewrite <- list_fmap_compose.
  apply list_fmap_ext. intros _ c _. apply upper_ascii_idempotent.
Qed.

(** Pass 1 on a word against itself marks every position. *)
Lemma pass1_self w :
  ∀ p, (pass1 w w p).1 = replicate (length w) (Some Correct).
Proof.
  induction w as [|c w IH]; intros p; simpl; [done|].
  rewrite Ascii.eqb_refl.
  specialize (IH (take_one p c)).
  destruct (pass1 w w (take_one p c)). simpl in *. by rewrite IH.
Qed.

Lemma pass2_marked w :
  ∀ p, pass2 w (replicate (length w) (Some Correct)) p
       = replicate (length w) Correct.
Proof. induction w as [|c w IH]; intros p; simpl; [done|]. by rewrite IH. Qed.

Lemma fullyCorrect_replicate n : fullyCorrect (replicate n Correct) = true.
Proof. induction n; simpl; [done|]. done. Qed.

(** A guess that is the target, up to case, is fully correct. *)
Lemma evaluate_target g t vs :
  normalize g = normalize t → evaluate g t = inr vs → fullyCorrect vs = true.
Proof.
  intros Heq. unfold evaluate.
  destruct (length g =? length t); [|done].
  rewrite Heq.
  pose proof (pass1_self (normalize t) (frequency (normalize t))) as H1.
  destruct (pass1 _ _ _) as [marks p]. simpl in H1. subst marks.
  intros [= <-]. rewrite pass2_marked. apply fullyCorrect_replicate.
Qed.

Lemma reachable_hidden s : reachable s → hidden s.
Proof.
  induction 1 as [L M t s Hc|s g s' r _ [Hn IH] Hs].
  - unfold create in Hc. destruct (_ =? _); [|done].
    injection Hc as <-. split; simpl.
    + apply normalize_idempotent.
    + intros _ a Ha. by apply elem_of_nil in Ha.
  - unfold submitGuess in Hs.
    destruct (decide (status s = Playing)) as [Hp|Hp];
      [rewrite bool_decide_eq_true_2 in Hs by done
      |by rewrite bool_decide_eq_false_2 in Hs].
    simpl in Hs.
    destruct (negb _); [done|].
    destruct (_ =? maxAttempts s); [done|].
    destruct (evaluate g (target s)) as [e|vs] eqn:He; [done|].
    injection Hs as <- <-. split; simpl; [done|].
    destruct (fullyCorrect vs) eqn:Hf; [done|].
    intros _ a [Ha| ->%list_elem_of_singleton]%elem_of_app.
    + by apply IH.
    + simpl. intros Heq.
      assert (fullyCorrect vs = true); [|congruence].
      apply (evaluate_target g (target s)); [|done].
      by rewrite Hn.
Qed.


(** C5. While a session is Playing its target is in nothing that
    [submitGuess] returns, in nothing that the game-state view holds and
    in nothing that the board shows: the revealed word of the result and
    of the view is absent (the board's [solution] is [null] after loading
    such a view, and its status message is not shown), and no recorded
    guess is the target.  The word is there only with a status of Won or
    Lost, and it is then the target. *)
Theorem target_hidden_while_playing (s : Session) :
  reachable s →
  (status s = Playing →
     view_word (currentView s) = None
     ∧ GameBoard.game_word (gameData (currentView s)) = None
     ∧ ∀ a, a ∈ view_attempts (currentView s) → guess a ≠ target s)
  ∧ (∀ w, view_word (currentView s) = Some w →
       status s ≠ Playing ∧ w = target s)
  ∧ (∀ g s' r, submitGuess s g = inr (s', r) →
       newStatus r = status s'
       ∧ (status s' = Playing →
            revealed r = None
            ∧ GameBoard.guess_word (guessData r) = None)
       ∧ (∀ w, revealed r = Some w → status s' ≠ Playing ∧ w = target s'))
  ∧ (∀ st id net,
       GameBoard.onGame net = Body (gameData (currentView s)) →
       let st' := (GameBoard.loadGameState st id net).1 in
       GameBoard.gameStatus st' = status s
       ∧ (status s = Playing →
            GameBoard.solution st' = None
            ∧ GameBoard.statusMessage st' = None)
       ∧ (∀ w, GameBoard.solution st' = Some w →
            status s ≠ Playing ∧ w = string_of_list_ascii (target s))).
Proof.
  intros Hr. destruct (reachable_hidden s Hr) as [_ Hhid].
  split; [|split; [|split]].
  - intros Hp. unfold currentView, gameData. simpl.
    rewrite bool_decide_eq_true_2 by done. auto.
  - intros w. unfold currentView. simpl.
    destruct (decide (status s = Playing)) as [Hp|Hp];
      [by rewrite bool_decide_eq_true_2
      |rewrite bool_decide_eq_false_2 by done].
    by intros [= <-].
  - intros g s' r Hs. unfold submitGuess in Hs.
    destruct (negb (bool_decide _)); [done|].
    destruct (negb _); [done|].
    destruct (_ =? maxAttempts s); [done|].
    destruct (evaluate g (target s)) as [e|vs]; [done|].
    injection Hs as <- <-. simpl.
    split; [done|].
    destruct (fullyCorrect vs); [|destruct (_ =? _)]; simpl;
      (split; [try done|by intros w [= <-]]).
  - intros st id net Hbody. cbv zeta.
    assert (Hst : ∀ st', st' = (GameBoard.loadGameState st id net).1 →
              GameBoard.gameStatus st' = status s
              ∧ GameBoard.solution st'
                = string_of_list_ascii <$> view_word (currentView s)).
    { intros st' ->. unfold GameBoard.loadGameState. rewrite Hbody. simpl.
      by destruct (Keyboard.mergeAll _ _ _ _). }
    destruct (Hst _ eq_refl) as [Hstatus Hsol].
    split; [done|]. split.
    + intros Hp. split.
      * rewrite Hsol. unfold currentView. simpl.
        by rewrite bool_decide_eq_true_2.
      * unfold GameBoard.statusMessage. by rewrite Hstatus, Hp.
    + intros w. rewrite Hsol. unfold currentView. simpl.
      destruct (decide (status s = Playing)) as [Hp|Hp];
        [by rewrite bool_decide_eq_true_2
        |rewrite bool_decide_eq_false_2 by done].
      by intros [= <-].
Qed.

Lemma target_hidden_while_playing_witness :
  view_word (currentView crane_session) = None.
Proof.
  destruct (target_hidden_while_playing crane_session) as [H _].
  - apply (reachable_create 5 6 (word "CRANE")). reflexivity.
  - apply H. reflexivity.
Defined.

End SessionFacts.

(** ** The statistics *)
Module StatsFacts.
Import Stats.

(** A number above zero is not zero. *)
Lemma positive_not_zero (p : float) :
  (0 <? p)%float = true → (p =? 0)%float = false.
Proof.
  rewrite FloatAxioms.ltb_spec, FloatAxioms.eqb_spec.
  change (Prim2SF 0) with (S754_zero false).
  by destruct (Prim2SF p) as [[]|[]| |[] m e].
Qed.


(** X2. The win percentage never divides by zero, whatever the numbers of
    the record: the division is evaluated only with [played > 0], and the
    percentage is 0 otherwise. *)
Theorem winPercentage_never_divides_by_zero (stats : StatsData) :
  winPercentage_checked stats = Some (winPercentage stats)
  ∧ ((0 <? played stats)%float = false → winPercentage stats = 0%float).
Proof.
  split.
  - unfold winPercentage_checked, winPercentage, checked_div.
    destruct (0 <? played stats)%float eqn:Hp; [|done].
    by rewrite positive_not_zero.
  - intros Hp. unfold winPercentage. by rewrite Hp.
Qed.

Lemma winPercentage_never_divides_by_zero_witness :
  winPercentage {| played := 0; won := 0; current_streak := 0;
                   max_streak := 0; guess_distribution := [] |} = 0%float.
Proof.
  apply (winPercentage_never_divides_by_zero
           {| played := 0; won := 0; current_streak := 0;
              max_streak := 0; guess_distribution := [] |}).
  reflexivity.
Defined.

(** C10. The percentage shown is not always [100 * won / played] rounded:
    for 23 wins in 40 games the board shows 57, where 100 * 23 / 40 = 57.5
    rounds to 58 wherever a tie goes (the product (23 / 40) * 100 of
    doubles is 57.49999999999999); and for 29 wins in 200 games it
    shows 14, where 14.5 rounds up to 15. *)
Theorem winPercentage_rounds_tie_down :
  let shown won played :=
    winPercentage {| played := of_Z played; won := of_Z won;
                     current_streak := 0; max_streak := 0;
                     guess_distribution := [] |} in
  shown 23%Z 40%Z = of_Z 57
  ∧ exact_percentage true 23 40 = 58%Z
  ∧ exact_percentage false 23 40 = 58%Z
  ∧ shown 29%Z 200%Z = of_Z 14
  ∧ exact_percentage true 29 200 = 15%Z
  ∧ shown 1%Z 2%Z = of_Z 50
  ∧ shown 1%Z 3%Z = of_Z 33.
Proof. vm_compute. done. Qed.

End StatsFacts.

(** ** The API client *)
Module ApiFacts.

(** C6. [getStats] of part_001 answers a failure of both its stores with
    a success: the response it returns when the Firestore read throws and
    the HTTP request fails is the very response it returns for a player
    without games whose statistics the server delivered, so the caller
    cannot tell that anything failed; [getStats] of api.ts throws on the
    same failure. *)
Theorem getStats_swallows_failure :
  let fresh := {| Api.success := true; Api.stats := Some Api.defaultStats;
                  Api.error := None |} in
  Api.getStats Api.ReadThrows NetworkError = Returns fresh
  ∧ Api.getStats Api.ReadThrows HttpError = Returns fresh
  ∧ Api.getStats Api.ReadThrows NetworkError
    = Api.getStats Api.NoDocument (Body fresh)
  ∧ Api.getStats_http NetworkError = Throws
  ∧ (∀ firestore api, Api.getStats firestore api ≠ Throws).
Proof.
  repeat split; try reflexivity.
  intros [] []; discriminate.
Qed.


End ApiFacts.


(** ** Keys, one after the other, on the board that plays against the
    server *)
Module KeyPressFacts.
Import JSFacts GameBoard GameBoardFacts BoardView.

(** Writing the buffer that the board already has changes nothing. *)
Lemma set_currentAttempt_same st cells :
  currentAttempt st = cells → set_currentAttempt st cells = st.
Proof. intros <-. by destruct st. Qed.

Lemma set_currentAttempt_twice st cells cells' :
  set_currentAttempt (set_currentAttempt st cells) cells'
  = set_currentAttempt st cells'.
Proof. done. Qed.

(** A letter key on an active board whose buffer has room. *)
Lemma press_letter L st key net letters :
  active st → JS.is_letter_key key = true →
  length letters < L → Forall upper_letter letters →
  currentAttempt st = buffer L letters →
  handleKeyPress L st key net
  = (set_currentAttempt st (buffer L (letters ++ [JS.toUpperCase key])), []).
Proof.
  intros [Hp Hld] Hkey Hlen Hl Hbuf. unfold handleKeyPress.
  destruct (letter_key_not_special key Hkey) as [-> ->].
  rewrite Hp, Hld, bool_decide_eq_true_2, Hkey by done. simpl.
  rewrite Hbuf, findIndex_buffer by (done || lia).
  rewrite decide_False by lia.
  destruct (Z.eqb_spec (Z.of_nat (length letters)) (-1)); [lia|]. simpl.
  by rewrite Nat2Z.id, set_buffer_letter.
Qed.

(** Backspace on an active board whose buffer holds a letter. *)
Lemma press_backspace L st net letters s :
  active st → length (letters ++ [s]) ≤ L →
  Forall upper_letter (letters ++ [s]) →
  currentAttempt st = buffer L (letters ++ [s]) →
  handleKeyPress L st "Backspace" net
  = (set_currentAttempt st (buffer L letters), []).
Proof.
  intros [Hp Hld] Hlen Hl Hbuf. unfold handleKeyPress.
  rewrite Hp, Hld, bool_decide_eq_true_2 by done. simpl.
  rewrite Hbuf, findIndex_buffer by done.
  rewrite length_app in *. simpl in *.
  destruct (decide (length letters + 1 = L)) as [Heq|Hne]; simpl.
  - destruct (Z.leb_spec 0 (Z.of_nat L - 1)); [|lia]. simpl.
    replace (Z.to_nat (Z.of_nat L - 1)) with (length letters) by lia.
    rewrite set_buffer_empty; [done|]. rewrite length_app. simpl. lia.
  - destruct (Z.eqb_spec (Z.of_nat (length letters + 1)) (-1)); [lia|].
    destruct (Z.leb_spec 0 (Z.of_nat (length letters + 1) - 1)); [|lia].
    simpl.
    replace (Z.to_nat (Z.of_nat (length letters + 1) - 1))
      with (length letters) by lia.
    rewrite set_buffer_empty; [done|]. rewrite length_app. simpl. lia.
Qed.

(** X4. On an active board, Backspace undoes a letter and a letter undoes
    Backspace: a letter key pressed where the buffer has room, then
    Backspace, gives back the very state of the board, and so does
    Backspace followed by a key of the letter that it removed, in either
    case; neither sends a request. *)
Theorem letter_and_backspace_undo_each_other (L : nat) (st : State)
    (key : string) (net net' : Replies) (letters : list string) :
  active st → Forall upper_letter letters → length letters ≤ L →
  currentAttempt st = buffer L letters →
  JS.is_letter_key key = true →
  (length letters < L →
     let '(st1, sent1) := handleKeyPress L st key net in
     handleKeyPress L st1 "Backspace" net' = (st, []) ∧ sent1 = [])
  ∧ (∀ before, letters = before ++ [JS.toUpperCase key] →
       let '(st1, sent1) := handleKeyPress L st "Backspace" net in
       handleKeyPress L st1 key net' = (st, []) ∧ sent1 = []).
Proof.
  intros Hact Hl Hlen Hbuf Hkey. split.
  - intros Hlt. rewrite (press_letter L st key net letters) by done.
    split; [|done].
    rewrite (press_backspace L _ net' letters (JS.toUpperCase key)).
    + by rewrite set_currentAttempt_twice, set_currentAttempt_same.
    + done.
    + rewrite length_app. simpl. lia.
    + apply Forall_app. split; [done|].
      apply Forall_singleton. by apply toUpperCase_letter.
    + done.
  - intros before ->.
    rewrite (press_backspace L st net before (JS.toUpperCase key)) by done.
    split; [|done].
    rewrite length_app in Hlen. simpl in Hlen.
    apply Forall_app in Hl as [Hl _].
    rewrite (press_letter L _ key net' before); try done; [|lia].
    by rewrite set_currentAttempt_twice, set_currentAttempt_same.
Qed.

Lemma letter_and_backspace_undo_each_other_witness :
  handleKeyPress 5 (handleKeyPress 5 started_board "q" no_replies).1
                 "Backspace" no_replies
  = (started_board, []).
Proof.
  pose proof (letter_and_backspace_undo_each_other 5 started_board "q"
                no_replies no_replies []) as H.
  destruct H as [H _].
  - split; reflexivity.
  - constructor.
  - simpl. lia.
  - reflexivity.
  - reflexivity.
  - exact (proj1 (H ltac:(simpl; lia))).
Defined.


(** The buttons of the virtual keyboard other than Enter and Backspace are
    upper-case letter keys. *)
Lemma button_letter key :
  key ∈ concat rows → key ≠ "Enter" → key ≠ "Backspace" →
  JS.is_letter_key key = true ∧ JS.toUpperCase key = key.
Proof.
  intros Hin HE HB. apply list_elem_of_In in Hin. simpl in Hin.
  repeat (destruct Hin as [<-|Hin]; [by (done || split)|]). done.
Qed.

Lemma letter_button c :
  JS.is_upper c = true → String c EmptyString ∈ concat rows.
Proof.
  intros H. apply list_elem_of_In.
  destruct c as [[] [] [] [] [] [] [] []];
    try (vm_compute in H; discriminate H); simpl; tauto.
Qed.

(** X5. The virtual keyboard has a button for every upper-case letter,
    and a click on a letter button of an active board whose buffer has
    room types that very letter into the first empty cell without sending
    anything; a click while the board is loading or the game is over does
    nothing. *)
Theorem keyboard_click_types_its_letter (L : nat) (st : State)
    (key : string) (net : Replies) (letters : list string) :
  key ∈ concat rows → key ≠ "Enter" → key ≠ "Backspace" →
  Forall upper_letter letters → length letters < L →
  currentAttempt st = buffer L letters →
  (active st →
     click L st key net
     = (set_currentAttempt st (buffer L (letters ++ [key])), []))
  ∧ (¬ active st → click L st key net = (st, []))
  ∧ (∀ c, JS.is_upper c = true → String c EmptyString ∈ concat rows).
Proof.
  intros Hin HE HB Hl Hlen Hbuf.
  destruct (button_letter key Hin HE HB) as [Hkey Hup].
  split; [|split].
  - intros Hact. unfold click, clicked.
    destruct (String.eqb_spec key "Backspace"); [done|].
    destruct (String.eqb_spec key "Enter"); [done|].
    destruct Hact as [Hp Hld]. rewrite Hp, Hld, bool_decide_eq_true_2 by done.
    simpl. rewrite (press_letter L st key net letters); try done.
    by rewrite Hup.
  - intros Hna. unfold click, active in *.
    destruct (decide (gameStatus st = Playing)) as [Hp|Hp];
      [rewrite bool_decide_eq_true_2 by done
      |by rewrite bool_decide_eq_false_2].
    destruct (isLoading st); [done|]. tauto.
  - apply letter_button.
Qed.

Lemma keyboard_click_types_its_letter_witness :
  click 5 started_board "W" no_replies
  = (set_currentAttempt started_board (buffer 5 ["W"]), []).
Proof.
  apply (keyboard_click_types_its_letter 5 started_board "W" no_replies []).
  - apply list_elem_of_In. simpl. tauto.
  - discriminate.
  - discriminate.
  - constructor.
  - simpl. lia.
  - reflexivity.
  - split; reflexivity.
Defined.

End KeyPressFacts.


(** ** What the board shows *)
Module BoardViewFacts.
Import Keyboard KeyboardFacts GameBoard BoardView.

(** A best verdict of what was held and what was received is a best
    verdict of what was received, when what was held was received. *)
Lemma best_within v held got :
  best v (held ++ got) → (∀ s, s ∈ held → s ∈ got) → best v got.
Proof.
  destruct v as [s|]; simpl.
  - intros [Hin Hmax] Hheld. split.
    + apply elem_of_app in Hin as [Hin|Hin]; auto.
    + intros s' Hs'. apply Hmax, elem_of_app. by right.
  - intros Hnil _. by apply app_eq_nil in Hnil as [_ ->].
Qed.

Lemma known_from_attempts ks attempts evaluations letter :
  from_attempts ks attempts evaluations →
  ∀ s, s ∈ known ks letter → s ∈ received letter attempts evaluations.
Proof.
  intros Hfrom s. unfold known.
  destruct (read ks letter) as [s'|] eqn:Hr.
  - intros ->%list_elem_of_singleton. by apply Hfrom.
  - by intros ?%elem_of_nil.
Qed.

(** The letters of a word are one character long. *)
Lemma split_single w l : l ∈ JS.split w → String.length l = 1.
Proof.
  induction w as [|c w IH]; simpl.
  - by intros ?%elem_of_nil.
  - intros [->|Hin]%elem_of_cons; [done|by apply IH].
Qed.

Lemma received_in_cell l cells e s :
  s ∈ received_in l cells e → Some l ∈ cells.
Proof.
  revert e. induction cells as [|c cells IH]; intros [|x e]; simpl;
    try by intros ?%elem_of_nil.
  destruct (decide (c = Some l)) as [->|Hne].
  - intros _. by left.
  - intros Hin. right. by apply (IH e).
Qed.

Lemma received_single l attempts :
  ∀ evaluations s, s ∈ received l attempts evaluations → String.length l = 1.
Proof.
  induction attempts as [|w attempts IH]; intros [|e evaluations] s; simpl;
    try by intros ?%elem_of_nil.
  intros [Hin|Hin]%elem_of_app; [|by apply (IH evaluations s)].
  apply received_in_cell in Hin.
  apply list_elem_of_fmap in Hin as (l' & [= ->] & Hl').
  by apply split_single in Hl'.
Qed.

(** What a best verdict of received verdicts can be. *)
Lemma best_cases v got :
  best v got → Forall verdict got →
  (v = None ∧ got = [])
  ∨ (v = Some "correct" ∧ "correct" ∈ got)
  ∨ (v = Some "present" ∧ "present" ∈ got ∧ ("correct" ∉ got))
  ∨ (v = Some "absent" ∧ "absent" ∈ got ∧ ("present" ∉ got)
     ∧ ("correct" ∉ got)).
Proof.
  destruct v as [s|]; simpl; [|by left].
  intros [Hin Hmax] Hall. right.
  assert (Hs : verdict s) by (by apply (proj1 (Forall_forall _ _) Hall)).
  destruct Hs as [->|[->| ->]].
  - by left.
  - right. left. repeat split; [done|].
    intros Hc. specialize (Hmax _ Hc). vm_compute in Hmax. lia.
  - right. right. repeat split; [done| |].
    + intros Hc. specialize (Hmax _ Hc). vm_compute in Hmax. lia.
    + intros Hc. specialize (Hmax _ Hc). vm_compute in Hmax. lia.
Qed.

(** After a load of aligned data into a keyboard status that holds
    verdicts of these attempts only, each key holds the best verdict its
    letter received. *)
Lemma loaded_keyboard st id net data :
  onGame net = Body data → JS.truthy (game_error data) = false →
  valid_keyboard (keyboardStatus st) →
  aligned (game_attempts data) (game_evaluations data) →
  from_attempts (keyboardStatus st) (game_attempts data)
                (game_evaluations data) →
  attempts (loadGameState st id net).1 = JS.split <$> game_attempts data
  ∧ evaluations (loadGameState st id net).1 = game_evaluations data
  ∧ gameStatus (loadGameState st id net).1 = game_status data
  ∧ solution (loadGameState st id net).1 = game_word data
  ∧ error (loadGameState st id net).1 = None
  ∧ ∀ key,
      best (read (keyboardStatus (loadGameState st id net).1) key)
           (received key (game_attempts data) (game_evaluations data))
      ∧ Forall verdict
          (received key (game_attempts data) (game_evaluations data)).
Proof.
  intros Hbody Herr Hvalid Hal Hfrom.
  destruct (mergeAll_best _ _ _ Hvalid Hal) as (ks' & Hm & Hbest).
  unfold loadGameState. rewrite Hbody, Herr. simpl. rewrite Hm. simpl.
  repeat split; try done.
  - apply (best_within _ (known (keyboardStatus st) key)).
    + rewrite read_lookup. apply raw_best_best, Hbest.
    + by apply known_from_attempts.
  - destruct (all_statuses_received key (game_attempts data)
                (game_evaluations data) 0) as [_ Hv];
      [by rewrite drop_0|]. by rewrite drop_0 in Hv.
Qed.


Lemma getKeyColor_letter ks key s :
  String.length key = 1 → read ks key = Some s → verdict s →
  getKeyColor ks key = getStatusColor s.
Proof.
  intros Hlen Hr Hs. unfold getKeyColor. rewrite Hr.
  destruct (String.eqb_spec key "Enter") as [->|_]; [done|].
  destruct (String.eqb_spec key "Backspace") as [->|_]; [done|].
  by destruct Hs as [->|[->| ->]].
Qed.

(** X6. After the game state is loaded (verdicts only, one per letter,
    into a keyboard status that holds nothing but verdicts of these
    attempts, as after a new game), the colour of a key of the virtual
    keyboard tells the best verdict of its letter: green iff the letter
    was correct somewhere, yellow iff it was present somewhere and
    correct nowhere, dark grey iff it was played and absent everywhere,
    and the colour of an unused key iff it was never played. *)
Theorem key_colour_tells_best_verdict (st : State) (id : string)
    (net : Replies) (data : GameData) (key : string) :
  onGame net = Body data → JS.truthy (game_error data) = false →
  valid_keyboard (keyboardStatus st) →
  aligned (game_attempts data) (game_evaluations data) →
  from_attempts (keyboardStatus st) (game_attempts data)
                (game_evaluations data) →
  let colour := getKeyColor (keyboardStatus (loadGameState st id net).1) key in
  let got := received key (game_attempts data) (game_evaluations data) in
  (colour = "bg-green-500 text-white" ↔ "correct" ∈ got)
  ∧ (colour = "bg-yellow-500 text-white"
     ↔ "present" ∈ got ∧ ("correct" ∉ got))
  ∧ (colour = "bg-gray-500 text-white"
     ↔ "absent" ∈ got ∧ ("present" ∉ got) ∧ ("correct" ∉ got))
  ∧ (colour = "bg-gray-200" ↔ got = []).
Proof.
  intros Hbody Herr Hvalid Hal Hfrom. cbv zeta.
  destruct (loaded_keyboard st id net data Hbody Herr Hvalid Hal Hfrom)
    as (_ & _ & _ & _ & _ & Hkey).
  destruct (Hkey key) as [Hbest Hall]. clear Hkey.
  set (ks' := keyboardStatus (loadGameState st id net).1) in *.
  set (got := received key (game_attempts data) (game_evaluations data)) in *.
  assert (Hlen : ∀ s, s ∈ got → String.length key = 1).
  { intros s Hs. by apply (received_single key _ _ s Hs). }
  destruct (best_cases _ _ Hbest Hall)
    as [[Hr Hg]|[[Hr Hg]|[(Hr & Hg & Hn)|(Hr & Hg & Hn1 & Hn2)]]].
  - assert (Hc : getKeyColor ks' key = "bg-gray-200").
    { unfold getKeyColor. rewrite Hr. simpl. by destruct (_ || _). }
    rewrite Hc, Hg. repeat split; try done;
      try (by intros ?%elem_of_nil); try (by intros [?%elem_of_nil _]).
  - rewrite (getKeyColor_letter ks' key "correct") by (eauto || by left).
    repeat split; try done; try (by intros [_ ?]);
      try (by intros (_ & _ & ?)).
    intros Hnil. rewrite Hnil in Hg. by apply elem_of_nil in Hg.
  - rewrite (getKeyColor_letter ks' key "present")
      by (eauto || by right; left).
    repeat split; try done; try (by intros (_ & ? & _)).
    intros Hnil. rewrite Hnil in Hg. by apply elem_of_nil in Hg.
  - rewrite (getKeyColor_letter ks' key "absent")
      by (eauto || by right; right).
    repeat split; try done; try (by intros [? _]).
    intros Hnil. rewrite Hnil in Hg. by apply elem_of_nil in Hg.
Qed.


Lemma key_colour_tells_best_verdict_witness :
  getKeyColor (keyboardStatus
                 (loadGameState started_board "g1" erase_replies).1) "E"
  = "bg-yellow-500 text-white".
Proof.
  destruct (key_colour_tells_best_verdict started_board "g1" erase_replies
              erase_game "E") as (_ & H & _).
  - reflexivity.
  - reflexivity.
  - intros l v Hl. simpl in Hl. by rewrite lookup_empty in Hl.
  - constructor; [|constructor].
    split; [reflexivity|].
    repeat (constructor; [unfold verdict; auto|]). constructor.
  - intros letter s Hs. unfold read in Hs. simpl in Hs.
    by rewrite lookup_empty in Hs.
  - apply H. split.
    + apply list_elem_of_In. simpl. tauto.
    + intros Hin. apply list_elem_of_In in Hin. simpl in Hin.
      destruct Hin as [Hin|[Hin|[]]]; discriminate.
Defined.

Lemma received_in_lookup l cells :
  ∀ e j s, cells !! j = Some (Some l) → e !! j = Some s →
    s ∈ received_in l cells e.
Proof.
  induction cells as [|c cells IH]; intros [|x e] [|j] s; simpl; try done.
  - intros [= ->] [= ->]. rewrite decide_True by done. by left.
  - intros Hc He. destruct (decide (c = Some l)).
    + right. by apply (IH e j).
    + by apply (IH e j).
Qed.

(** The verdict shown in a cell of a loaded attempt is one that its letter
    received. *)
Lemma cell_received attempts :
  ∀ evaluations i j w letter,
    aligned attempts evaluations →
    attempts !! i = Some w → JS.split w !! j = Some letter →
    cellStatus evaluations i j ∈ received letter attempts evaluations
    ∧ verdict (cellStatus evaluations i j).
Proof.
  induction attempts as [|w' attempts IH];
    intros evaluations i j w letter Hal Hi Hj; [done|].
  destruct evaluations as [|e evaluations]; [inversion Hal|].
  apply Forall2_cons in Hal as [[Hlen He] Hal].
  destruct i as [|i]; simpl in Hi.
  - injection Hi as ->. unfold cellStatus. simpl.
    assert (Hlt : j < length e).
    { apply lookup_lt_Some in Hj. rewrite length_split in Hj. lia. }
    destruct (lookup_lt_is_Some_2 _ _ Hlt) as [s Hs].
    unfold JS.get. rewrite Hs. simpl. split.
    + apply elem_of_app. left. apply (received_in_lookup _ _ _ j); [|done].
      by rewrite list_lookup_fmap, Hj.
    + by apply (Forall_lookup_1 _ _ _ _ He Hs).
  - destruct (IH evaluations i j w letter Hal Hi Hj) as [Hin Hv].
    unfold cellStatus in *. simpl. split; [|done].
    apply elem_of_app. by right.
Qed.

(** X7. After the game state is loaded (same conditions), every letter of
    every attempt is shown in the grid with the colour of the verdict it
    got at its place, and its key on the virtual keyboard has the colour
    of a verdict at least as good: a letter that was played never shows as
    unused on the keyboard, and a green cell means a green key. *)
Theorem played_letter_has_coloured_key (st : State) (id : string)
    (net : Replies) (data : GameData) (i j : nat) (w letter : string) :
  onGame net = Body data → JS.truthy (game_error data) = false →
  valid_keyboard (keyboardStatus st) →
  aligned (game_attempts data) (game_evaluations data) →
  from_attempts (keyboardStatus st) (game_attempts data)
                (game_evaluations data) →
  game_attempts data !! i = Some w → JS.split w !! j = Some letter →
  let st' := (loadGameState st id net).1 in
  let cell := cellStatus (evaluations st') i j in
  verdict cell
  ∧ (∃ cells, attemptRows st' !! i = Some (AttemptRow cells)
              ∧ cells !! j = Some (letter, getStatusColor cell))
  ∧ (∃ s, verdict s ∧ rank cell ≤ rank s
          ∧ getKeyColor (keyboardStatus st') letter = getStatusColor s)
  ∧ (cell = "correct" →
       getKeyColor (keyboardStatus st') letter = "bg-green-500 text-white")
  ∧ getKeyColor (keyboardStatus st') letter ≠ "bg-gray-200".
Proof.
  intros Hbody Herr Hvalid Hal Hfrom Hi Hj. cbv zeta.
  destruct (loaded_keyboard st id net data Hbody Herr Hvalid Hal Hfrom)
    as (Hat & Hev & _ & _ & _ & Hkey).
  destruct (Hkey letter) as [Hbest Hall]. clear Hkey.
  destruct (cell_received _ _ i j w letter Hal Hi Hj) as [Hin Hv].
  rewrite Hev.
  set (st' := (loadGameState st id net).1) in *.
  set (cell := cellStatus (game_evaluations data) i j) in *.
  assert (Hkeycol : ∃ s, verdict s ∧ rank cell ≤ rank s
            ∧ getKeyColor (keyboardStatus st') letter = getStatusColor s).
  { destruct (read (keyboardStatus st') letter) as [s|] eqn:Hr;
      simpl in Hbest.
    - destruct Hbest as [Hs Hmax]. exists s.
      assert (verdict s) by (by apply (proj1 (Forall_forall _ _) Hall)).
      split; [done|]. split; [by apply Hmax|].
      apply getKeyColor_letter; try done.
      by apply (received_single letter _ _ _ Hin).
    - rewrite Hbest in Hin. by apply elem_of_nil in Hin. }
  split; [done|]. split; [|split; [done|split]].
  - unfold attemptRows.
    rewrite Hev, list_lookup_imap, Hat, list_lookup_fmap, Hi.
    simpl. eexists. split; [done|].
    by rewrite list_lookup_imap, Hj.
  - intros Hc. destruct Hkeycol as (s & Hs & Hle & ->).
    rewrite Hc in Hle.
    destruct Hs as [->|[->| ->]]; [done|vm_compute in Hle; lia..].
  - destruct Hkeycol as (s & Hs & _ & ->).
    by destruct Hs as [->|[->| ->]].
Qed.

Lemma played_letter_has_coloured_key_witness :
  getKeyColor (keyboardStatus
                 (loadGameState started_board "g1" erase_replies).1) "R"
  ≠ "bg-gray-200".
Proof.
  destruct (played_letter_has_coloured_key started_board "g1" erase_replies
              erase_game 0 1 "ERASE" "R") as (_ & _ & _ & _ & H).
  - reflexivity.
  - reflexivity.
  - intros l v Hl. simpl in Hl. by rewrite lookup_empty in Hl.
  - constructor; [|constructor].
    split; [reflexivity|].
    repeat (constructor; [unfold verdict; auto|]). constructor.
  - intros letter s Hs. unfold read in Hs. simpl in Hs.
    by rewrite lookup_empty in Hs.
  - reflexivity.
  - reflexivity.
  - exact H.
Defined.

(** X8. The grid of a game that is on has [maxAttempts] rows as long as
    fewer than [maxAttempts] attempts are recorded: the attempts, the
    current attempt and blank rows; were there more attempts, it would
    show them all and the current attempt, and no blank row.  Once the
    game is over the grid shows the attempts and nothing else. *)
Theorem grid_rows (M L : nat) (st : State) :
  (gameStatus st = Playing →
     length (grid M L st) = max M (length (attempts st) + 1)
     ∧ grid M L st !! length (attempts st)
       = Some (CurrentRow (currentAttempt st))
     ∧ ∀ k, length (attempts st) < k → k < M →
         grid M L st !! k = Some (EmptyRow L))
  ∧ (gameStatus st ≠ Playing → grid M L st = attemptRows st)
  ∧ length (attemptRows st) = length (attempts st).
Proof.
  assert (Hlen : length (attemptRows st) = length (attempts st)).
  { unfold attemptRows. by rewrite length_imap. }
  split; [|split; [|done]].
  - intros Hp. unfold grid, arrayFrom.
    rewrite Hp, bool_decide_eq_true_2 by done.
    split; [|split].
    + rewrite !length_app, Hlen, length_replicate. simpl. lia.
    + rewrite lookup_app_r by lia. by rewrite Hlen, Nat.sub_diag.
    + intros k Hk1 Hk2. rewrite lookup_app_r by lia.
      rewrite Hlen.
      destruct (k - length (attempts st)) as [|n] eqn:Hn; [lia|]. simpl.
      apply lookup_replicate_2. lia.
  - intros Hp. unfold grid. rewrite bool_decide_eq_false_2 by done.
    by rewrite !app_nil_r.
Qed.

Lemma grid_rows_witness :
  length (grid 6 5 started_board) = 6.
Proof.
  destruct (grid_rows 6 5 started_board) as [H _].
  destruct (H eq_refl) as [H1 _]. exact H1.
Defined.

End BoardViewFacts.


(** ** The stand-alone board, one key after the other *)
Module LocalRunFacts.
Import JSFacts LocalBoard LocalBoardFacts LocalRun.
Import GameBoardFacts.


Lemma run_snoc M L events event :
  run M L (events ++ [event])
  = handleKeyPress M L (run M L events) event.1 event.2.
Proof. unfold run. by rewrite foldl_app. Qed.

Lemma shaped_initial M L : shaped M L (initial M L).
Proof.
  unfold shaped, initial. simpl. rewrite !length_replicate.
  repeat split; try done; try lia.
  - intros k row [-> _]%lookup_replicate. exists []. split; [done|].
    split.
    + unfold letters_in. simpl. by destruct k.
    + by rewrite buffer_nil.
  - intros k _ Hk. by apply lookup_replicate_2.
Qed.

(** The row being typed, in a shaped state. *)
Lemma shaped_row M L st row :
  shaped M L st → currentRow st = Some row →
  ∃ letters, Forall GameBoard.upper_letter letters
             ∧ length letters = currentPosition st
             ∧ row = GameBoard.buffer L letters.
Proof.
  intros (_ & _ & _ & _ & Hrows & _) Hrow.
  destruct (Hrows _ _ Hrow) as (letters & Hl & Hlen & ->).
  exists letters. split; [done|]. split; [|done].
  unfold letters_in in Hlen.
  rewrite Nat.ltb_irrefl, Nat.eqb_refl in Hlen. done.
Qed.

Lemma shaped_letter M L st key reply :
  shaped M L st → gameStatus st = Playing →
  JS.is_letter_key key = true →
  shaped M L (handleKeyPress M L st key reply).
Proof.
  intros Hsh Hp Hkey. unfold handleKeyPress.
  destruct (letter_key_not_special key Hkey) as [-> ->].
  rewrite Hp, bool_decide_eq_true_2, Hkey by done. simpl.
  destruct (Nat.ltb_spec (currentPosition st) L) as [Hlt|_]; [|done].
  destruct (currentRow st) as [row|] eqn:Hrow; [|done].
  destruct (shaped_row M L st row Hsh Hrow) as (letters & Hl & Hlen & ->).
  destruct Hsh as (S1 & S2 & S3 & S4 & S5 & S6).
  unfold shaped, writeCell. simpl. rewrite length_insert.
  repeat split; try done; try lia.
  intros k row. unfold letters_in. simpl.
  destruct (decide (k = currentAttempt st)) as [->|Hne].
  - rewrite list_lookup_insert_eq
      by (apply lookup_lt_Some in Hrow; done).
    intros [= <-]. rewrite <- Hlen, set_buffer_letter by lia.
    exists (letters ++ [JS.toUpperCase key]). split; [|split; [|done]].
    + apply Forall_app. split; [done|].
      apply Forall_singleton. by apply toUpperCase_letter.
    + rewrite Nat.ltb_irrefl, Nat.eqb_refl, length_app. simpl. lia.
  - rewrite list_lookup_insert_ne by done. intros Hk.
    destruct (S5 _ _ Hk) as (ls & H1 & H2 & H3).
    exists ls. split; [done|]. split; [|done].
    unfold letters_in in H2.
    destruct (k =? currentAttempt st) eqn:He; [|done].
    apply Nat.eqb_eq in He. done.
Qed.

Lemma shaped_backspace M L st :
  shaped M L st → shaped M L (handleBackspace st).
Proof.
  intros Hsh. unfold handleBackspace.
  destruct (Nat.ltb_spec 0 (currentPosition st)) as [Hpos|_]; [|done].
  destruct (currentRow st) as [row|] eqn:Hrow; [|done].
  destruct (shaped_row M L st row Hsh Hrow) as (letters & Hl & Hlen & ->).
  destruct Hsh as (S1 & S2 & S3 & S4 & S5 & S6).
  destruct letters as [|s letters _] using rev_ind; [simpl in Hlen; lia|].
  rewrite length_app in Hlen. simpl in Hlen.
  unfold shaped, writeCell. simpl. rewrite length_insert.
  repeat split; try done; try lia.
  intros k row. unfold letters_in. simpl.
  destruct (decide (k = currentAttempt st)) as [->|Hne].
  - rewrite list_lookup_insert_eq
      by (apply lookup_lt_Some in Hrow; done).
    intros [= <-].
    replace (currentPosition st - 1) with (length letters) by lia.
    rewrite set_buffer_empty by (rewrite length_app; simpl; lia).
    exists letters. split; [|split; [|done]].
    + by apply Forall_app in Hl as [Hl _].
    + rewrite Nat.ltb_irrefl, Nat.eqb_refl. lia.
  - rewrite list_lookup_insert_ne by done. intros Hk.
    destruct (S5 _ _ Hk) as (ls & H1 & H2 & H3).
    exists ls. split; [done|]. split; [|done].
    unfold letters_in in H2.
    destruct (k =? currentAttempt st) eqn:He; [|done].
    apply Nat.eqb_eq in He. done.
Qed.

Lemma length_set_inside {A} (a : list (option A)) i v :
  i < length a → length (JS.set a i v) = length a.
Proof.
  intros Hi. unfold JS.set. rewrite decide_True by done.
  by rewrite length_insert.
Qed.

Lemma lookup_set_other {A} (a : list (option A)) i j v :
  i < length a → i ≠ j → JS.set a i v !! j = a !! j.
Proof.
  intros Hi Hne. unfold JS.set. rewrite decide_True by done.
  by rewrite list_lookup_insert_ne.
Qed.

Lemma shaped_submit M L st reply :
  shaped M L st → shaped M L (handleSubmit M L st reply).
Proof.
  intros Hsh. unfold handleSubmit.
  destruct (Nat.eqb_spec (currentPosition st) L) as [Hpos|_]; [|done].
  simpl.
  destruct (currentRow st) as [row|] eqn:Hrow; [|done].
  destruct (shaped_row M L st row Hsh Hrow) as (letters & Hl & Hlen & ->).
  destruct Hsh as (S1 & S2 & S3 & S4 & S5 & S6).
  assert (Hk : currentAttempt st < M).
  { apply lookup_lt_Some in Hrow. lia. }
  assert (Hset : ∀ e, length (JS.set (evaluation st) (currentAttempt st) e)
                      = M).
  { intros e. rewrite length_set_inside; lia. }
  assert (Hblank : ∀ e k, currentAttempt st < k → k < M →
            JS.set (evaluation st) (currentAttempt st) e !! k
            = Some (Some (replicate L ""))).
  { intros e k Hk1 Hk2. rewrite lookup_set_other by lia. by apply S6. }
  destruct (correct (checkWord L reply));
    [|destruct (Z.eqb_spec (Z.of_nat (currentAttempt st)) (Z.of_nat M - 1))];
    unfold shaped; simpl.
  - repeat split; try done. intros k Hk1 Hk2. by apply Hblank.
  - repeat split; try done. intros k Hk1 Hk2. by apply Hblank.
  - repeat split; try done; try lia.
    + intros k row' Hrow'. unfold letters_in. simpl.
      destruct (S5 _ _ Hrow') as (ls & H1 & H2 & H3).
      exists ls. split; [done|]. split; [|done].
      unfold letters_in in H2. rewrite H2.
      destruct (Nat.ltb_spec k (currentAttempt st));
        destruct (Nat.eqb_spec k (currentAttempt st));
        destruct (Nat.ltb_spec k (currentAttempt st + 1));
        destruct (Nat.eqb_spec k (currentAttempt st + 1)); lia.
    + intros k Hk1 Hk2. apply Hblank; lia.
Qed.

Lemma shaped_step M L st key reply :
  shaped M L st → shaped M L (handleKeyPress M L st key reply).
Proof.
  intros Hsh.
  destruct (decide (gameStatus st = Playing)) as [Hp|Hp];
    [|by rewrite over_ignores].
  destruct (JS.is_letter_key key) eqn:Hkey;
    [by apply shaped_letter|].
  unfold handleKeyPress. rewrite bool_decide_eq_true_2 by done. simpl.
  destruct (String.eqb key "Enter"); [by apply shaped_submit|].
  destruct (String.eqb key "Backspace"); [by apply shaped_backspace|].
  by rewrite Hkey.
Qed.

Lemma shaped_run M L events : shaped M L (run M L events).
Proof.
  induction events as [|event events IH] using rev_ind.
  - apply shaped_initial.
  - rewrite run_snoc. by apply shaped_step.
Qed.


(** A key makes the game won only when the check answers that the guess
    is correct. *)
Lemma won_by_correct M L st key reply :
  gameStatus (handleKeyPress M L st key reply) = Won →
  gameStatus st = Won ∨ correct (checkWord L reply) = true.
Proof.
  unfold handleKeyPress.
  destruct (decide (gameStatus st = Playing)) as [Hp|Hp];
    [rewrite bool_decide_eq_true_2 by done
    |rewrite bool_decide_eq_false_2 by done; auto].
  simpl.
  destruct (String.eqb key "Enter").
  { unfold handleSubmit. destruct (negb _); [auto|].
    destruct (currentRow st); [|auto].
    destruct (correct (checkWord L reply)); [auto|].
    destruct (_ =? _)%Z; simpl; [done|]. rewrite Hp. done. }
  destruct (String.eqb key "Backspace").
  { unfold handleBackspace. destruct (_ <? _); [|auto].
    destruct (currentRow st); simpl; auto. }
  destruct (_ && _); [|auto].
  destruct (currentRow st); simpl; auto.
Qed.

(** X11. With the server out of reach the stand-alone board is never
    won: whatever keys are pressed, when every request fails (no answer,
    or an answer that is not ok) the fallback of [checkWord] never reports
    a correct guess, and the status never becomes "won". *)
Theorem offline_game_is_never_won (M L : nat)
    (events : list (string * Fetch CheckResult)) :
  offline events → gameStatus (run M L events) ≠ Won.
Proof.
  intros Hoff.
  assert (Hmock : ∀ event, event ∈ events →
            correct (checkWord L event.2) = false).
  { intros event Hin.
    pose proof (proj1 (Forall_forall _ _) Hoff event Hin) as Hev.
    simpl in Hev. destruct event.2 as [| |data]; try done.
    by destruct (Hev data). }
  clear Hoff. induction events as [|event events IH] using rev_ind.
  - done.
  - rewrite run_snoc. intros Hwon.
    apply won_by_correct in Hwon as [Hwon|Hwon].
    + apply IH; [|done]. intros ev Hev. apply Hmock, elem_of_app. by left.
    + rewrite Hmock in Hwon; [done|]. apply elem_of_app. right. by left.
Qed.

Lemma offline_game_is_never_won_witness :
  gameStatus (run 1 1 [("a", NetworkError); ("Enter", HttpError)]) ≠ Won.
Proof.
  apply (offline_game_is_never_won 1 1
           [("a", NetworkError); ("Enter", HttpError)]).
  repeat constructor; intros data; discriminate.
Defined.


End LocalRunFacts.


(** ** The stand-alone board with its checks on their way *)
Module LocalAsyncFacts.
Import JSFacts GameBoardFacts LocalBoard LocalBoardFacts LocalRunFacts.
Import LocalAsync.

(** The listener holds the [evaluation] and [keyboardStatus] of the last
    render. *)
Lemma listening_fresh st queue :
  heardEvaluation (listening st queue) = evaluation st
  ∧ heardKeyboardStatus (listening st queue) = keyboardStatus st.
Proof. done. Qed.

(** A key other than Enter does what the handler of [LocalBoard] does,
    and leaves the checks on their way. *)
Lemma press_other M L b e ks key reply :
  key ≠ "Enter" →
  shown (handleKeyPress L b e ks key)
  = LocalBoard.handleKeyPress M L (shown b) key reply
  ∧ pending (handleKeyPress L b e ks key) = pending b
  ∧ (heardEvaluation b = evaluation (shown b) →
     heardKeyboardStatus b = keyboardStatus (shown b) →
     heardEvaluation (handleKeyPress L b e ks key)
     = evaluation (shown (handleKeyPress L b e ks key))
     ∧ heardKeyboardStatus (handleKeyPress L b e ks key)
       = keyboardStatus (shown (handleKeyPress L b e ks key))).
Proof.
  intros HE. apply String.eqb_neq in HE.
  unfold handleKeyPress, LocalBoard.handleKeyPress, handleBackspace.
  rewrite HE.
  destruct (negb _); [done|].
  destruct (String.eqb key "Backspace").
  { destruct (_ <? _); [|done]. by destruct (currentRow (shown b)). }
  destruct (_ && _); [|done]. by destruct (currentRow (shown b)).
Qed.

(** Enter starts a check, or does nothing. *)
Lemma press_enter L b e ks :
  ((gameStatus (shown b) ≠ Playing ∨ currentPosition (shown b) ≠ L
    ∨ currentRow (shown b) = None)
   ∧ handleKeyPress L b e ks "Enter" = b)
  ∨ (gameStatus (shown b) = Playing
     ∧ currentPosition (shown b) = L
     ∧ is_Some (currentRow (shown b))
     ∧ handleKeyPress L b e ks "Enter"
       = {| shown := shown b;
            heardEvaluation := heardEvaluation b;
            heardKeyboardStatus := heardKeyboardStatus b;
            pending :=
              pending b
              ++ [{| p_attempt := currentAttempt (shown b);
                     p_evaluation := e;
                     p_keyboardStatus := ks |}] |}).
Proof.
  unfold handleKeyPress. simpl.
  destruct (decide (gameStatus (shown b) = Playing)) as [Hp|Hp];
    [rewrite bool_decide_eq_true_2 by done
    |rewrite bool_decide_eq_false_2 by done; left; by auto].
  simpl.
  destruct (Nat.eqb_spec (currentPosition (shown b)) L) as [Hpos|Hpos];
    [|left; by auto].
  simpl. destruct (currentRow (shown b)) as [row|] eqn:Hrow;
    [|left; by auto].
  right. by eauto.
Qed.

(** Enter when nothing can be submitted, for the handler of
    [LocalBoard]. *)
Lemma enter_nothing M L st reply :
  gameStatus st ≠ Playing ∨ currentPosition st ≠ L ∨ currentRow st = None →
  LocalBoard.handleKeyPress M L st "Enter" reply = st.
Proof.
  intros H. unfold LocalBoard.handleKeyPress, handleSubmit. simpl.
  destruct (decide (gameStatus st = Playing)) as [Hp|Hp];
    [rewrite bool_decide_eq_true_2 by done
    |by rewrite bool_decide_eq_false_2].
  simpl.
  destruct (Nat.eqb_spec (currentPosition st) L) as [Hpos|_]; [|done].
  simpl. destruct H as [?|[?|Hrow]]; [done|done|]. by rewrite Hrow.
Qed.

(** The answer to a check that read the state of the last render does what
    [handleSubmit] of [LocalBoard] does. *)
Lemma resolve_atomic M L st reply :
  gameStatus st = Playing → currentPosition st = L →
  is_Some (currentRow st) →
  resolve M L st {| p_attempt := currentAttempt st;
                    p_evaluation := evaluation st;
                    p_keyboardStatus := keyboardStatus st |} reply
  = LocalBoard.handleKeyPress M L st "Enter" reply
  ∧ changed st (LocalBoard.handleKeyPress M L st "Enter" reply) = true.
Proof.
  intros Hp Hpos [row Hrow].
  assert (Heq : resolve M L st {| p_attempt := currentAttempt st;
                                  p_evaluation := evaluation st;
                                  p_keyboardStatus := keyboardStatus st |}
                        reply
                = LocalBoard.handleKeyPress M L st "Enter" reply).
  { unfold resolve, LocalBoard.handleKeyPress, handleSubmit. simpl.
    rewrite bool_decide_eq_true_2 by done. simpl.
    rewrite Hpos, Nat.eqb_refl. simpl.
    unfold currentRow in *. rewrite Hrow.
    destruct (correct (checkWord L reply)); [done|].
    by destruct (_ =? _)%Z. }
  split; [done|]. rewrite <- Heq. unfold resolve, changed. simpl.
  unfold currentRow in Hrow. rewrite Hrow.
  destruct (correct (checkWord L reply)); simpl.
  { rewrite Hp. rewrite (bool_decide_eq_false_2 (Won = Playing)) by done.
    by rewrite orb_true_r. }
  destruct (_ =? _)%Z; simpl.
  { rewrite Hp. rewrite (bool_decide_eq_false_2 (Lost = Playing)) by done.
    by rewrite orb_true_r. }
  rewrite (bool_decide_eq_false_2 (currentAttempt st + 1 = currentAttempt st))
    by lia.
  done.
Qed.

(** *** The board when every key waits for the answer *)

(** What holds between two events when no key comes while a check is on
    its way: the shape of the state, a listener that holds the last
    render, and at most one check, which read the last render. *)
Lemma calm_step M L b event :
  LocalRun.shaped M L (shown b) →
  heardEvaluation b = evaluation (shown b) →
  heardKeyboardStatus b = keyboardStatus (shown b) →
  (pending b = []
   ∨ (pending b = [{| p_attempt := currentAttempt (shown b);
                      p_evaluation := evaluation (shown b);
                      p_keyboardStatus := keyboardStatus (shown b) |}]
      ∧ gameStatus (shown b) = Playing
      ∧ currentPosition (shown b) = L
      ∧ is_Some (currentRow (shown b)))) →
  (is_key event = true → idle b = true) →
  let b' := step M L b event in
  LocalRun.shaped M L (shown b')
  ∧ heardEvaluation b' = evaluation (shown b')
  ∧ heardKeyboardStatus b' = keyboardStatus (shown b')
  ∧ (pending b' = []
     ∨ (pending b' = [{| p_attempt := currentAttempt (shown b');
                         p_evaluation := evaluation (shown b');
                         p_keyboardStatus := keyboardStatus (shown b') |}]
        ∧ gameStatus (shown b') = Playing
        ∧ currentPosition (shown b') = L
        ∧ is_Some (currentRow (shown b')))).
Proof.
  intros Hsh He Hks Hpend Hidle. cbv zeta.
  assert (Hkey : ∀ e ks key,
            pending b = [] →
            e = evaluation (shown b) → ks = keyboardStatus (shown b) →
            let b' := handleKeyPress L b e ks key in
            LocalRun.shaped M L (shown b')
            ∧ heardEvaluation b' = evaluation (shown b')
            ∧ heardKeyboardStatus b' = keyboardStatus (shown b')
            ∧ (pending b' = []
               ∨ (pending b'
                  = [{| p_attempt := currentAttempt (shown b');
                        p_evaluation := evaluation (shown b');
                        p_keyboardStatus := keyboardStatus (shown b') |}]
                  ∧ gameStatus (shown b') = Playing
                  ∧ currentPosition (shown b') = L
                  ∧ is_Some (currentRow (shown b'))))).
  { intros e ks key Hnil -> ->. cbv zeta.
    destruct (decide (key = "Enter")) as [->|HE].
    - destruct (press_enter L b (evaluation (shown b))
                  (keyboardStatus (shown b)))
        as [[_ ->]|(Hp & Hpos & Hrow & ->)].
      + by auto.
      + simpl. rewrite Hnil. simpl. by auto 10.
    - destruct (press_other M L b (evaluation (shown b))
                  (keyboardStatus (shown b)) key NetworkError HE)
        as (-> & -> & Hfresh).
      destruct (Hfresh He Hks) as [F1 F2].
      split; [by apply shaped_step|]. by auto. }
  destruct event as [key|key|i reply]; simpl.
  - rewrite He, Hks. apply Hkey; try done.
    specialize (Hidle eq_refl). unfold idle in Hidle.
    by destruct (pending b).
  - destruct (bool_decide _); [|by auto].
    apply Hkey; try done.
    specialize (Hidle eq_refl). unfold idle in Hidle.
    by destruct (pending b).
  - unfold answer.
    destruct Hpend as [Hnil|(Hone & Hp & Hpos & Hrow)].
    + rewrite Hnil. simpl. by auto.
    + rewrite Hone. destruct i as [|i]; simpl; [|by rewrite <- Hone; auto 10].
      destruct (resolve_atomic M L (shown b) reply Hp Hpos Hrow)
        as [-> ->].
      simpl. split; [by apply shaped_step|]. by auto.
Qed.

Lemma calm_from_run M L events :
  ∀ b,
    LocalRun.shaped M L (shown b) →
    heardEvaluation b = evaluation (shown b) →
    heardKeyboardStatus b = keyboardStatus (shown b) →
    (pending b = []
     ∨ (pending b = [{| p_attempt := currentAttempt (shown b);
                        p_evaluation := evaluation (shown b);
                        p_keyboardStatus := keyboardStatus (shown b) |}]
        ∧ gameStatus (shown b) = Playing
        ∧ currentPosition (shown b) = L
        ∧ is_Some (currentRow (shown b)))) →
    calm_from M L b events = true →
    LocalRun.shaped M L (shown (foldl (step M L) b events)).
Proof.
  induction events as [|event events IH]; intros b Hsh He Hks Hpend Hcalm.
  { done. }
  simpl in *. apply andb_prop in Hcalm as [Hnow Hrest].
  destruct (calm_step M L b event Hsh He Hks Hpend) as (S1 & S2 & S3 & S4).
  { intros Hk. rewrite Hk in Hnow. done. }
  by apply IH.
Qed.

Lemma calm_shaped M L events :
  calm M L events → LocalRun.shaped M L (shown (run M L events)).
Proof.
  intros Hcalm. apply calm_from_run; try done.
  - apply shaped_initial.
  - by left.
Qed.


(** *** The board whatever the order of keys and answers *)










(** The cell at the cursor of a shaped state is empty. *)
Lemma shaped_cursor M L st :
  LocalRun.shaped M L st → currentPosition st < L → cursor_on_empty st.
Proof.
  intros Hsh Hpos row Hrow.
  destruct (shaped_row M L st row Hsh Hrow) as (letters & _ & Hlen & ->).
  unfold GameBoard.buffer, JS.fill.
  rewrite lookup_app_r by (rewrite length_fmap; lia).
  rewrite length_fmap, Hlen, Nat.sub_diag.
  apply lookup_replicate_2. lia.
Qed.

(** X10. On the stand-alone board, whatever checks are on their way, a
    letter key pressed while the game is on, the row has room and the cell
    at the cursor is empty, followed by Backspace, gives back the state
    that was shown, and starts no check.  The cell at the cursor is empty
    whenever no key has come while a check was on its way. *)
Theorem local_backspace_undoes_letter (M L : nat) (b : Board)
    (key : string) (events : list Event) :
  (gameStatus (shown b) = Playing → currentPosition (shown b) < L →
   JS.is_letter_key key = true → cursor_on_empty (shown b) →
   shown (step M L (step M L b (KeyDown key)) (KeyDown "Backspace"))
   = shown b
   ∧ pending (step M L (step M L b (KeyDown key)) (KeyDown "Backspace"))
     = pending b)
  ∧ (calm M L events → currentPosition (shown (run M L events)) < L →
     cursor_on_empty (shown (run M L events))).
Proof.
  split; [|intros Hcalm Hpos; apply (shaped_cursor M L); [|done];
            by apply calm_shaped].
  intros Hp Hlt Hkey Hcell.
  destruct (letter_key_not_special key Hkey) as [HE HB].
  set (st := shown b) in *.
  destruct (currentRow st) as [row|] eqn:Hrow; cycle 1.
  { assert (Hstep : step M L b (KeyDown key) = b).
    { simpl. unfold handleKeyPress. fold st.
      rewrite Hp, bool_decide_eq_true_2, HE, HB, Hkey, Hrow by done. simpl.
      by destruct (_ <? _). }
    rewrite Hstep. simpl. unfold handleKeyPress. fold st.
    rewrite Hp, bool_decide_eq_true_2, Hrow by done. simpl.
    by destruct (_ <? _). }
  pose proof (Hcell row Hrow) as Hempty.
  assert (Hin : currentPosition st < length row).
  { by apply lookup_lt_Some in Hempty. }
  assert (Hstep : step M L b (KeyDown key)
            = listening
                {| attempts :=
                     <[currentAttempt st :=
                         <[currentPosition st := Some (JS.toUpperCase key)]>
                           row]> (attempts st);
                   currentAttempt := currentAttempt st;
                   currentPosition := currentPosition st + 1;
                   gameStatus := gameStatus st;
                   evaluation := evaluation st;
                   keyboardStatus := keyboardStatus st |}
                (pending b)).
  { simpl. unfold handleKeyPress. fold st.
    rewrite Hp, bool_decide_eq_true_2, HE, HB, Hkey, Hrow by done. simpl.
    destruct (Nat.ltb_spec (currentPosition st) L); [|lia].
    unfold writeCell, JS.set. by rewrite decide_True. }
  rewrite Hstep. simpl. unfold handleKeyPress. simpl.
  rewrite Hp, bool_decide_eq_true_2 by done. simpl.
  destruct (Nat.ltb_spec 0 (currentPosition st + 1)); [|lia].
  unfold currentRow, writeCell, JS.get. simpl.
  rewrite list_lookup_insert_eq by (apply lookup_lt_Some in Hrow; done).
  simpl. split; [|done].
  rewrite list_insert_insert_eq.
  replace (currentPosition st + 1 - 1) with (currentPosition st) by lia.
  unfold JS.set. rewrite length_insert, decide_True by done.
  rewrite list_insert_insert_eq.
  rewrite (list_insert_id row) by done.
  rewrite list_insert_id by done.
  destruct st. simpl in *. by rewrite Hp.
Qed.

Lemma local_backspace_undoes_letter_witness :
  shown (step 6 5 (step 6 5 (run 6 5 [KeyDown "c"]) (KeyDown "r"))
              (KeyDown "Backspace"))
  = shown (run 6 5 [KeyDown "c"]).
Proof.
  apply (proj1 (local_backspace_undoes_letter 6 5 (run 6 5 [KeyDown "c"])
                  "r" [KeyDown "c"])).
  - reflexivity.
  - vm_compute. lia.
  - reflexivity.
  - apply (proj2 (local_backspace_undoes_letter 6 5 (run 6 5 [KeyDown "c"])
                    "r" [KeyDown "c"])).
    + reflexivity.
    + vm_compute. lia.
Defined.




(** *** One key after the other *)

Lemma calm_from_app M L l1 :
  ∀ b l2,
    calm_from M L b (l1 ++ l2)
    = calm_from M L b l1 && calm_from M L (foldl (step M L) b l1) l2.
Proof.
  induction l1 as [|event l1 IH]; intros b l2; simpl; [done|].
  by rewrite IH, andb_assoc.
Qed.

(** A key and the answer to the check it may have started, on a board
    with no check on its way and a listener that holds the last render,
    do what the handler of [LocalBoard] does. *)
Lemma key_then_answer M L b key reply :
  pending b = [] →
  heardEvaluation b = evaluation (shown b) →
  heardKeyboardStatus b = keyboardStatus (shown b) →
  let b' := step M L (step M L b (KeyDown key)) (Answer 0 reply) in
  shown b' = LocalBoard.handleKeyPress M L (shown b) key reply
  ∧ pending b' = []
  ∧ heardEvaluation b' = evaluation (shown b')
  ∧ heardKeyboardStatus b' = keyboardStatus (shown b').
Proof.
  intros Hnil He Hks. cbv zeta.
  destruct (decide (key = "Enter")) as [->|HE].
  - simpl.
    destruct (press_enter L b (heardEvaluation b) (heardKeyboardStatus b))
      as [[Hno ->]|(Hp & Hpos & Hrow & ->)].
    + unfold answer. rewrite Hnil. simpl.
      by rewrite enter_nothing.
    + unfold answer. simpl. rewrite Hnil, He, Hks. simpl.
      destruct (resolve_atomic M L (shown b) reply Hp Hpos Hrow)
        as [-> ->].
      done.
  - destruct (press_other M L b (heardEvaluation b) (heardKeyboardStatus b)
                key reply HE) as (H1 & H2 & H3).
    destruct (H3 He Hks) as [F1 F2]. simpl.
    unfold answer. rewrite H2, Hnil. simpl.
    split; [exact H1|]. split; [by rewrite H2|]. by split.
Qed.

Lemma settled_run M L events :
  shown (run M L (settled events)) = LocalRun.run M L events
  ∧ pending (run M L (settled events)) = []
  ∧ heardEvaluation (run M L (settled events))
    = evaluation (shown (run M L (settled events)))
  ∧ heardKeyboardStatus (run M L (settled events))
    = keyboardStatus (shown (run M L (settled events)))
  ∧ calm M L (settled events).
Proof.
  induction events as [|event events IH] using rev_ind; [done|].
  destruct IH as (I1 & I2 & I3 & I4 & I5).
  unfold settled, calm in *. rewrite flat_map_app. simpl.
  rewrite calm_from_app, I5. simpl.
  unfold run in *. rewrite foldl_app.
  unfold LocalRun.run in *. rewrite foldl_app. simpl.
  set (b := foldl (step M L) (start M L) _) in *.
  destruct (key_then_answer M L b event.1 event.2 I2 I3 I4)
    as (K1 & K2 & K3 & K4).
  simpl in *.
  split; [by rewrite K1, I1|]. split; [done|].
  split; [done|]. split; [done|].
  unfold idle. by rewrite I2.
Qed.

(** X20. When every check is answered before the next key is pressed, the
    stand-alone board with its checks on their way goes through the very
    states of the handlers run one after the other, a submission being one
    step: after the keys [events], each followed by the answer to the
    check it may have started, the state shown is the one that the
    handlers of [LocalBoard] give, and no check is on its way. *)
Theorem answered_checks_are_atomic (M L : nat)
    (events : list (string * Fetch CheckResult)) :
  shown (run M L (settled events)) = LocalRun.run M L events
  ∧ pending (run M L (settled events)) = []
  ∧ calm M L (settled events).
Proof.
  destruct (settled_run M L events) as (H1 & H2 & _ & _ & H3). done.
Qed.

(** The game is won only by an answer that reports a correct guess. *)
Lemma step_won M L b event :
  gameStatus (shown (step M L b event)) = Won →
  gameStatus (shown b) = Won
  ∨ ∃ i reply, event = Answer i reply ∧ correct (checkWord L reply) = true.
Proof.
  assert (Hkey : ∀ e ks key,
            gameStatus (shown (handleKeyPress L b e ks key))
            = gameStatus (shown b)).
  { intros e ks key. unfold handleKeyPress.
    destruct (negb _); [done|].
    destruct (String.eqb key "Enter").
    { destruct (negb _); [done|]. by destruct (currentRow (shown b)). }
    destruct (String.eqb key "Backspace").
    { destruct (_ <? _); [|done]. by destruct (currentRow (shown b)). }
    destruct (_ && _); [|done]. by destruct (currentRow (shown b)). }
  destruct event as [key|key|i reply]; simpl.
  - rewrite Hkey. by left.
  - destruct (bool_decide _); [|by left]. rewrite Hkey. by left.
  - unfold answer. destruct (pending b !! i) as [p|]; [|by left].
    assert (Hres : gameStatus (resolve M L (shown b) p reply) = Won →
              gameStatus (shown b) = Won
              ∨ correct (checkWord L reply) = true).
    { unfold resolve.
      destruct (JS.get _ _); [|by left].
      destruct (correct (checkWord L reply)); [by right|].
      destruct (_ =? _)%Z; [done|]. by left. }
    destruct (changed _ _); simpl; intros [?|?]%Hres; eauto.
Qed.

(** X21. With the server out of reach the stand-alone board is never
    won, in whatever order the keys and the failures of the checks come:
    when no check is answered by the server, the status never becomes
    "won". *)
Theorem unanswered_game_is_never_won (M L : nat) (events : list Event) :
  unanswered events → gameStatus (shown (run M L events)) ≠ Won.
Proof.
  induction events as [|event events IH] using rev_ind; intros Hun.
  - done.
  - unfold run in *. rewrite foldl_app. simpl. intros Hwon.
    apply step_won in Hwon as [Hwon|(i & reply & -> & Hcorrect)].
    + apply IH; [|done]. intros i reply data Hin.
      apply (Hun i). apply elem_of_app. by left.
    + destruct reply as [| |data]; [done|done|].
      apply (Hun i (Body data) data); [|done].
      apply elem_of_app. right. by left.
Qed.

Lemma unanswered_game_is_never_won_witness :
  gameStatus
    (shown (run 1 1 [KeyDown "a"; KeyDown "Enter"; KeyDown "Enter";
                     Answer 1 HttpError; Answer 0 NetworkError])) ≠ Won.
Proof.
  apply (unanswered_game_is_never_won 1 1
           [KeyDown "a"; KeyDown "Enter"; KeyDown "Enter";
            Answer 1 HttpError; Answer 0 NetworkError]).
  intros i reply data Hin Heq. subst reply.
  apply list_elem_of_In in Hin. simpl in Hin.
  repeat (destruct Hin as [Hin|Hin]; [discriminate|]). done.
Defined.

End LocalAsyncFacts.


(** ** The board that plays against the server, over any sequence of
    events *)
Module BoardRunFacts.
Import JSFacts Keyboard KeyboardFacts GameBoard GameBoardFacts.
Import BoardView KeyPressFacts BoardViewFacts BoardRun.

Lemma board_run_snoc M L events event :
  run M L (events ++ [event])
  = (handle M L (run M L events) event.1 event.2).1.
Proof. unfold run. by rewrite foldl_app. Qed.

(** [submitGuess] ends with the board not loading, and leaves
    [statsLoading] as it is or false. *)
Lemma submitGuess_loading L st word net :
  isLoading st = false → statsLoading st = false →
  isLoading (submitGuess L st word net).1 = false
  ∧ statsLoading (submitGuess L st word net).1 = false.
Proof.
  intros Hld Hsl. unfold submitGuess.
  destruct (gameId st) as [id|]; [|done].
  destruct (_ || _); [done|].
  destruct (onGuess net) as [| |data]; [done|done|].
  destruct (JS.truthy (guess_error data)); [done|].
  destruct (loadGameState _ id net) as [st2 sent2] eqn:Hload.
  assert (Hsl2 : statsLoading st2 = false).
  { apply (f_equal fst) in Hload. simpl in Hload. subst st2.
    unfold loadGameState. simpl.
    destruct (onGame net) as [| |game]; [done|done|].
    destruct (JS.truthy (game_error game)); [done|].
    by destruct (mergeAll _ _ _ _). }
  destruct (terminal (guess_status data)); [|done].
  unfold fetchStats. done.
Qed.

(** What a key leaves of a well-formed buffer. *)
Lemma handleKeyPress_invariant L st key net :
  well_formed L (currentAttempt st) →
  isLoading st = false → statsLoading st = false →
  well_formed L (currentAttempt (handleKeyPress L st key net).1)
  ∧ isLoading (handleKeyPress L st key net).1 = false
  ∧ statsLoading (handleKeyPress L st key net).1 = false.
Proof.
  intros (letters & Hlen & Hl & Hbuf) Hld Hsl.
  assert (Hwf : well_formed L (currentAttempt st)).
  { rewrite Hbuf. by apply well_formed_buffer. }
  destruct (decide (gameStatus st = Playing)) as [Hp|Hp]; cycle 1.
  { unfold handleKeyPress. by rewrite bool_decide_eq_false_2. }
  assert (Hact : active st) by done.
  destruct (String.eqb_spec key "Enter") as [->|HE].
  { unfold handleKeyPress.
    rewrite Hld, bool_decide_eq_true_2 by done. simpl.
    destruct (_ =? _); [|done].
    destruct (submitGuess_loading L st (JS.join (currentAttempt st)) net
                Hld Hsl) as [H1 H2].
    split; [|done].
    destruct (submitGuess_buffer L st (JS.join (currentAttempt st)) net)
      as [-> | ->]; [done|].
    rewrite <- buffer_nil. apply well_formed_buffer; [simpl; lia|done]. }
  destruct (String.eqb_spec key "Backspace") as [->|HB].
  { destruct (decide (letters = [])) as [->|Hne].
    - unfold handleKeyPress.
      rewrite Hld, bool_decide_eq_true_2 by done. simpl.
      rewrite Hbuf, findIndex_buffer by done. simpl.
      destruct (decide (0 = L)) as [HL|HL]; simpl.
      + by destruct (Z.leb_spec 0 (Z.of_nat L - 1)); [lia|].
      + done.
    - destruct (exists_last Hne) as (before & s & ->).
      rewrite (press_backspace L st net before s) by done. simpl.
      repeat split; try done.
      apply well_formed_buffer.
      + rewrite length_app in Hlen. simpl in Hlen. lia.
      + by apply Forall_app in Hl as [Hl _]. }
  destruct (JS.is_letter_key key) eqn:Hkey; cycle 1.
  { unfold handleKeyPress.
    rewrite Hld, bool_decide_eq_true_2, Hkey by done. simpl.
    apply String.eqb_neq in HE, HB. by rewrite HE, HB. }
  destruct (decide (length letters = L)) as [Hfull|Hroom].
  - unfold handleKeyPress.
    rewrite Hld, bool_decide_eq_true_2, Hkey by done. simpl.
    apply String.eqb_neq in HE, HB. rewrite HE, HB.
    rewrite Hbuf, findIndex_buffer by done.
    rewrite decide_True by done. simpl. done.
  - rewrite (press_letter L st key net letters) by (done || lia). simpl.
    repeat split; try done.
    apply well_formed_buffer.
    + rewrite length_app. simpl. lia.
    + apply Forall_app. split; [done|].
      apply Forall_singleton. by apply toUpperCase_letter.
Qed.

Lemma handle_invariant M L st event net :
  well_formed L (currentAttempt st) →
  isLoading st = false → statsLoading st = false →
  well_formed L (currentAttempt (handle M L st event net).1)
  ∧ isLoading (handle M L st event net).1 = false
  ∧ statsLoading (handle M L st event net).1 = false.
Proof.
  intros Hwf Hld Hsl. destruct event as [| |id|key|key]; simpl.
  - unfold startNewGame. destruct (onNewGame net) as [| |data]; simpl;
      try done.
    repeat split; try done.
    rewrite <- buffer_nil. apply well_formed_buffer; [simpl; lia|done].
  - unfold fetchStats. simpl. repeat split; try done.
    + destruct (onStats net) as [|response]; [done|].
      by destruct (Api.success response).
    + destruct (onStats net) as [|response]; [done|].
      by destruct (Api.success response).
  - unfold loadGameState. simpl.
    destruct (onGame net) as [| |game]; [done|done|].
    destruct (JS.truthy (game_error game)); [done|].
    by destruct (mergeAll _ _ _ _).
  - by apply handleKeyPress_invariant.
  - unfold click. destruct (_ && _); [|done].
    by apply handleKeyPress_invariant.
Qed.

Lemma run_invariant M L events :
  well_formed L (currentAttempt (run M L events))
  ∧ isLoading (run M L events) = false
  ∧ statsLoading (run M L events) = false.
Proof.
  induction events as [|event events IH] using rev_ind.
  - unfold run, initial. simpl. repeat split; try done.
    rewrite <- buffer_nil. apply well_formed_buffer; [simpl; lia|done].
  - rewrite board_run_snoc. destruct IH as (I1 & I2 & I3).
    by apply handle_invariant.
Qed.

(** X13. Whatever happens to the board, in whatever order (new games,
    loads, statistics, keys and clicks, with any answers of the server),
    the buffer of the current attempt keeps [wordLength] cells, upper-case
    letters first and empty cells after them, and once a handler has run
    to its end the board is not loading, nor are the statistics. *)
Theorem board_keeps_its_buffer (M L : nat) (events : list (Event * Replies)) :
  well_formed L (currentAttempt (run M L events))
  ∧ length (currentAttempt (run M L events)) = L
  ∧ isLoading (run M L events) = false
  ∧ statsLoading (run M L events) = false.
Proof.
  destruct (run_invariant M L events) as (Hwf & Hld & Hsl).
  repeat split; try done.
  destruct Hwf as (letters & Hlen & _ & ->). by apply length_buffer.
Qed.


(** The guess requests of [submitGuess]. *)
Lemma submitGuess_guess_request L st w net id word :
  GuessRequest id word ∈ (submitGuess L st w net).2 →
  gameId st = Some id ∧ word = w ∧ String.length w = L
  ∧ gameStatus st = Playing.
Proof.
  unfold submitGuess.
  destruct (gameId st) as [id0|]; [|by intros ?%elem_of_nil].
  destruct (JS.truthy (Some id0)); simpl; [|by intros ?%elem_of_nil].
  destruct (Nat.eqb_spec (String.length w) L) as [Hlen|_]; simpl;
    [|by intros ?%elem_of_nil].
  destruct (decide (gameStatus st = Playing)) as [Hp|Hp];
    [rewrite bool_decide_eq_true_2 by done
    |rewrite bool_decide_eq_false_2 by done]; simpl;
    [|by intros ?%elem_of_nil].
  assert (Hhead : GuessRequest id word = GuessRequest id0 w →
            Some id0 = Some id ∧ word = w ∧ String.length w = L
            ∧ gameStatus st = Playing).
  { by intros [= -> ->]. }
  destruct (onGuess net) as [| |data]; simpl.
  - intros ?%list_elem_of_singleton. auto.
  - intros ?%list_elem_of_singleton. auto.
  - destruct (JS.truthy (guess_error data)); simpl.
    + intros ?%list_elem_of_singleton. auto.
    + unfold loadGameState, fetchStats.
      destruct (terminal (guess_status data)); simpl.
      * intros [?|Hin]%elem_of_cons; [auto|].
        apply elem_of_cons in Hin as [?|Hin]; [done|].
        apply elem_of_cons in Hin as [?|Hin]; [done|].
        by apply elem_of_nil in Hin.
      * intros [?|Hin]%elem_of_cons; [auto|].
        apply elem_of_cons in Hin as [?|Hin]; [done|].
        by apply elem_of_nil in Hin.
Qed.

Lemma handleKeyPress_guess_request L st key net id word :
  GuessRequest id word ∈ (handleKeyPress L st key net).2 →
  key = "Enter" ∧ word = JS.join (currentAttempt st)
  ∧ gameId st = Some id ∧ String.length word = L.
Proof.
  unfold handleKeyPress.
  destruct (_ || _); [by intros ?%elem_of_nil|].
  destruct (String.eqb_spec key "Enter") as [->|_].
  { destruct (_ =? _); [|by intros ?%elem_of_nil].
    intros (Hid & -> & Hlen & _)%submitGuess_guess_request. done. }
  destruct (String.eqb key "Backspace").
  { destruct (_ <=? _)%Z; by intros ?%elem_of_nil. }
  destruct (JS.is_letter_key key); [|by intros ?%elem_of_nil].
  destruct (negb _); by intros ?%elem_of_nil.
Qed.

(** The word of a full buffer, letter by letter. *)
Lemma split_join letters :
  Forall upper_letter letters →
  JS.split (JS.join (Some <$> letters)) = letters.
Proof.
  induction 1 as [|s letters (c & -> & _) _ IH]; [done|].
  rewrite fmap_cons. cbn [JS.join].
  change (JS.split (String c (JS.join (Some <$> letters)))
          = String c "" :: letters).
  cbn [JS.split]. by rewrite IH.
Qed.

(** X14. Every guess that the board sends to the server, whatever happened
    to the board before, is made of exactly [wordLength] upper-case
    letters, is sent for the game the board holds, and is sent by the
    Enter key, pressed or clicked. *)
Theorem every_guess_sent_is_a_full_word (M L : nat)
    (events : list (Event * Replies)) (event : Event) (net : Replies)
    (id word : string) :
  GuessRequest id word ∈ (handle M L (run M L events) event net).2 →
  String.length word = L
  ∧ Forall upper_letter (JS.split word)
  ∧ gameId (run M L events) = Some id
  ∧ (event = KeyDown "Enter" ∨ event = Click "Enter").
Proof.
  destruct (run_invariant M L events) as ((letters & Hlen & Hl & Hbuf) & _).
  set (st := run M L events) in *.
  assert (Hkey : ∀ key,
            GuessRequest id word ∈ (handleKeyPress L st key net).2 →
            key = "Enter" ∧ String.length word = L
            ∧ Forall upper_letter (JS.split word) ∧ gameId st = Some id).
  { intros key (-> & -> & Hid & Hfull)%handleKeyPress_guess_request.
    rewrite Hbuf in *. rewrite length_join_buffer in Hfull by done.
    split; [done|]. split; [by rewrite length_join_buffer|].
    split; [|done].
    unfold buffer. rewrite Hfull, Nat.sub_diag. simpl. rewrite app_nil_r.
    by rewrite split_join. }
  destruct event as [| |id'|key|key]; simpl.
  - unfold startNewGame. simpl.
    intros [?|Hin]%elem_of_cons; [done|]. by apply elem_of_nil in Hin.
  - unfold fetchStats. simpl.
    intros [?|Hin]%elem_of_cons; [done|]. by apply elem_of_nil in Hin.
  - unfold loadGameState. simpl.
    intros [?|Hin]%elem_of_cons; [done|]. by apply elem_of_nil in Hin.
  - intros (-> & H1 & H2 & H3)%Hkey. auto.
  - unfold click. destruct (_ && _); [|by intros ?%elem_of_nil].
    intros (Hc & H1 & H2 & H3)%Hkey. repeat split; try done.
    right. f_equal. unfold clicked in Hc.
    destruct (String.eqb_spec key "Backspace") as [->|_]; [done|].
    by destruct (String.eqb_spec key "Enter") as [->|_].
Qed.

Lemma every_guess_sent_is_a_full_word_witness :
  String.length "A" = 1
  ∧ Forall upper_letter (JS.split "A")
  ∧ gameId (run 6 1 [(StartNewGame,
                      {| onNewGame := Body {| game_id := "g1" |};
                         onGame := NetworkError; onGuess := NetworkError;
                         onStats := Throws |});
                     (KeyDown "a", no_replies)]) = Some "g1"
  ∧ (KeyDown "Enter" = KeyDown "Enter" ∨ KeyDown "Enter" = Click "Enter").
Proof.
  apply (every_guess_sent_is_a_full_word 6 1
           [(StartNewGame,
             {| onNewGame := Body {| game_id := "g1" |};
                onGame := NetworkError; onGuess := NetworkError;
                onStats := Throws |});
            (KeyDown "a", no_replies)]
           (KeyDown "Enter") no_replies "g1" "A").
  vm_compute. by left.
Defined.


(** The merge of [loadGameState] throws exactly when a word with a letter
    has no evaluation. *)
Lemma mergeAll_throws attempts :
  ∀ (ks : status_map) evaluations index,
    mergeAll ks attempts evaluations index = None
    ↔ ∃ i word, attempts !! i = Some word ∧ word ≠ ""
                ∧ length evaluations ≤ index + i.
Proof.
  induction attempts as [|w rest IH]; intros ks evaluations index.
  { simpl. split; [done|]. by intros (i & word & Hi & _). }
  assert (Hrest : ∀ ks',
            mergeAll ks' rest evaluations (S index) = None
            ↔ ∃ i word, rest !! i = Some word ∧ word ≠ ""
                        ∧ length evaluations ≤ index + S i).
  { intros ks'. rewrite IH. split; intros (i & word & H1 & H2 & H3);
      exists i, word; repeat split; try done; lia. }
  simpl. unfold mergeAttempt, JS.get.
  destruct (evaluations !! index) as [e|] eqn:He.
  - apply lookup_lt_Some in He. rewrite Hrest.
    split; intros (i & word & H1 & H2 & H3).
    + by exists (S i), word.
    + destruct i as [|i]; [lia|]. by exists i, word.
  - apply lookup_ge_None in He.
    destruct (JS.split w) as [|c cs] eqn:Hw.
    + assert (w = "") as -> by (by destruct w).
      rewrite Hrest. split; intros (i & word & H1 & H2 & H3).
      * by exists (S i), word.
      * destruct i as [|i]; [by injection H1 as <-|]. by exists i, word.
    + split; [|done]. intros _. exists 0, w. repeat split; try done.
      * by intros ->.
      * lia.
Qed.

(** X15. Loading the game state sends one request and ends with the board
    not loading.  When the request fails or the server answers with an
    error, the game on the board is untouched and the error is "Failed to
    load game. Please try again.".  When the server answers with a game,
    its attempts, evaluations, status and solution replace those of the
    board in every case; the keyboard is merged and no error is shown
    unless a word with a letter comes without its evaluation: then the
    keyboard stays as it was and the same error is shown over the new
    attempts. *)
Theorem loadGameState_outcome (st : State) (id : string) (net : Replies) :
  let st' := (loadGameState st id net).1 in
  (loadGameState st id net).2 = [GameRequest id]
  ∧ isLoading st' = false
  ∧ gameId st' = gameId st
  ∧ currentAttempt st' = currentAttempt st
  ∧ (load_failed net →
       same_game st st'
       ∧ error st' = Some "Failed to load game. Please try again.")
  ∧ (∀ data, onGame net = Body data → JS.truthy (game_error data) = false →
       attempts st' = JS.split <$> game_attempts data
       ∧ evaluations st' = game_evaluations data
       ∧ gameStatus st' = game_status data
       ∧ solution st' = game_word data
       ∧ (unevaluated (game_attempts data) (game_evaluations data) →
            keyboardStatus st' = keyboardStatus st
            ∧ error st' = Some "Failed to load game. Please try again.")
       ∧ (¬ unevaluated (game_attempts data) (game_evaluations data) →
            mergeAll (keyboardStatus st) (game_attempts data)
                     (game_evaluations data) 0
            = Some (keyboardStatus st')
            ∧ error st' = None)).
Proof.
  cbv zeta. unfold loadGameState, load_failed, unevaluated, same_game.
  destruct (onGame net) as [| |data] eqn:Hgame; simpl.
  - repeat split; try done.
  - repeat split; try done.
  - destruct (JS.truthy (game_error data)) eqn:Herr.
    + do 5 (split; [done|]). intros data' [= <-] Hno. congruence.
    + pose proof (mergeAll_throws (game_attempts data) (keyboardStatus st)
                    (game_evaluations data) 0) as Hthrows.
      do 4 (split; [by destruct (mergeAll _ _ _ 0)|]).
      split.
      { intros Hfail. specialize (Hfail data eq_refl). congruence. }
      intros data' [= <-] _.
      destruct (mergeAll _ _ _ 0) as [ks'|]; simpl.
      * do 4 (split; [done|]). split.
        -- intros Hun. by apply Hthrows in Hun.
        -- done.
      * do 4 (split; [done|]). split.
        -- done.
        -- intros Hev. destruct Hev. by apply Hthrows.
Qed.

Lemma loadGameState_outcome_witness :
  keyboardStatus
    (loadGameState started_board "g1"
       {| onNewGame := NetworkError;
          onGame := Body {| game_error := None; game_attempts := ["ERASE"];
                            game_evaluations := []; game_status := Playing;
                            game_word := None |};
          onGuess := NetworkError; onStats := Throws |}).1
  = keyboardStatus started_board
  ∧ error
      (loadGameState started_board "g1"
         {| onNewGame := NetworkError;
            onGame := Body {| game_error := None; game_attempts := ["ERASE"];
                              game_evaluations := []; game_status := Playing;
                              game_word := None |};
            onGuess := NetworkError; onStats := Throws |}).1
    = Some "Failed to load game. Please try again.".
Proof.
  destruct (loadGameState_outcome started_board "g1"
              {| onNewGame := NetworkError;
                 onGame := Body {| game_error := None;
                                   game_attempts := ["ERASE"];
                                   game_evaluations := [];
                                   game_status := Playing;
                                   game_word := None |};
                 onGuess := NetworkError; onStats := Throws |})
    as (_ & _ & _ & _ & _ & H).
  destruct (H _ eq_refl eq_refl) as (_ & _ & _ & _ & Hun & _).
  apply Hun. exists 0, "ERASE". repeat split; done.
Defined.

(** X16. A guess that does not go through leaves the game and the typed
    letters as they are: when the request fails or the server answers
    with an error, [submitGuess] changes nothing of the game on the board
    (attempts, evaluations, buffer, status, keyboard, solution) nor of the
    statistics; either it was turned away and sent nothing, or it sent the
    guess and nothing else, and the board shows an error and is not
    loading. *)
Theorem rejected_guess_keeps_the_letters (L : nat) (st : State)
    (word : string) (net : Replies) :
  guess_failed net →
  let st' := (submitGuess L st word net).1 in
  let sent := (submitGuess L st word net).2 in
  same_game st st'
  ∧ stats st' = stats st
  ∧ ((st' = st ∧ sent = [])
     ∨ (∃ id message,
          gameId st = Some id ∧ sent = [GuessRequest id word]
          ∧ isLoading st' = false
          ∧ error st' = Some message ∧ message ≠ "")).
Proof.
  intros Hfail. cbv zeta. unfold submitGuess, same_game.
  destruct (gameId st) as [id|] eqn:Hid; [|by repeat split; try left].
  destruct (_ || _); [by repeat split; try left|].
  destruct (onGuess net) as [| |data] eqn:Hguess; simpl.
  - repeat split; try done. right. by eexists id, _.
  - repeat split; try done. right. by eexists id, _.
  - rewrite (Hfail data Hguess). simpl. repeat split; try done.
    right. specialize (Hfail data Hguess).
    destruct (guess_error data) as [message|]; [|done].
    exists id, message. repeat split; try done.
    intros ->. done.
Qed.

Lemma rejected_guess_keeps_the_letters_witness :
  same_game started_board
    (submitGuess 5 started_board "CRANE" no_replies).1.
Proof.
  apply (rejected_guess_keeps_the_letters 5 started_board "CRANE"
           no_replies).
  intros data Hdata. discriminate.
Defined.

(** [fetchStats] touches the statistics and nothing else. *)
Lemma fetchStats_frame st net :
  same_game st (fetchStats st net).1
  ∧ isLoading (fetchStats st net).1 = isLoading st
  ∧ error (fetchStats st net).1 = error st
  ∧ (fetchStats st net).2 = [StatsRequest].
Proof.
  unfold fetchStats, same_game. simpl.
  destruct (onStats net) as [|response]; [done|].
  by destruct (Api.success response).
Qed.

(** A load that fails. *)
Lemma loadGameState_failed st id net :
  load_failed net →
  same_game st (loadGameState st id net).1
  ∧ error (loadGameState st id net).1
    = Some "Failed to load game. Please try again.".
Proof.
  intros Hfail. unfold loadGameState, same_game.
  destruct (onGame net) as [| |game] eqn:Hgame; [done|done|].
  by rewrite (Hfail game Hgame).
Qed.

(** X17. A guess that the server accepts always empties the buffer: the
    board sends the guess, then asks for the game, and ends not loading
    with [wordLength] empty cells.  When that second request fails, the
    grid, the status and the keyboard stay as they were before the guess,
    so that the accepted guess is nowhere on the board, and the error is
    "Failed to load game. Please try again.". *)
Theorem accepted_guess_clears_the_buffer (L : nat) (st : State)
    (word : string) (net : Replies) (data : GuessData) :
  accepted L st word net data →
  let st' := (submitGuess L st word net).1 in
  let sent := (submitGuess L st word net).2 in
  currentAttempt st' = JS.fill L ""
  ∧ isLoading st' = false
  ∧ (∃ id rest,
       gameId st = Some id
       ∧ sent = GuessRequest id word :: GameRequest id :: rest)
  ∧ (load_failed net →
       attempts st' = attempts st
       ∧ evaluations st' = evaluations st
       ∧ gameStatus st' = gameStatus st
       ∧ keyboardStatus st' = keyboardStatus st
       ∧ error st' = Some "Failed to load game. Please try again.").
Proof.
  intros ((id & Hid & Htruthy) & Hlen & Hp & Hguess & Herr). cbv zeta.
  unfold submitGuess.
  rewrite Hid, Htruthy, Hlen, Nat.eqb_refl, Hp, bool_decide_eq_true_2 by done.
  cbn [negb orb]. rewrite Hguess. cbv beta iota. rewrite Herr, <- Hp.
  set (st1 := set_error (set_isLoading st true) None).
  pose proof (loadGameState_failed st1 id net) as Hfailed.
  assert (Hsent : (loadGameState st1 id net).2 = [GameRequest id]) by done.
  destruct (loadGameState st1 id net) as [st2 sent2]. simpl in *.
  subst sent2.
  set (st3 := set_currentAttempt st2 (JS.fill L "")).
  assert (Hst4 : ∀ st4 sent4,
            same_game st3 st4 → error st4 = error st3 →
            currentAttempt (set_isLoading st4 false) = JS.fill L ""
            ∧ isLoading (set_isLoading st4 false) = false
            ∧ (∃ id' rest,
                 Some id = Some id'
                 ∧ [GuessRequest id word] ++ [GameRequest id] ++ sent4
                   = GuessRequest id' word :: GameRequest id' :: rest)
            ∧ (load_failed net →
                 attempts (set_isLoading st4 false) = attempts st
                 ∧ evaluations (set_isLoading st4 false) = evaluations st
                 ∧ gameStatus (set_isLoading st4 false) = gameStatus st
                 ∧ keyboardStatus (set_isLoading st4 false)
                   = keyboardStatus st
                 ∧ error (set_isLoading st4 false)
                   = Some "Failed to load game. Please try again.")).
  { intros st4 sent4 (_ & G2 & G3 & G4 & G5 & G6 & _) G8. simpl.
    split; [by rewrite G4|]. split; [done|].
    split; [by exists id, sent4|].
    intros Hfail.
    destruct (Hfailed Hfail) as ((_ & F2 & F3 & _ & F5 & F6 & _) & F8).
    rewrite G2, G3, G5, G6, G8. simpl. by rewrite F2, F3, F5, F6, F8. }
  destruct (terminal (guess_status data)).
  - destruct (fetchStats_frame st3 net) as (F1 & _ & F3 & _).
    destruct (fetchStats st3 net) as [st4 sent4].
    by apply (Hst4 st4 sent4).
  - by apply (Hst4 st3 []).
Qed.

Lemma accepted_guess_clears_the_buffer_witness :
  currentAttempt (submitGuess 5 started_board "CRANE" crane_replies).1
  = JS.fill 5 "".
Proof.
  apply (accepted_guess_clears_the_buffer 5 started_board "CRANE"
           crane_replies crane_guess).
  unfold accepted. repeat split; try reflexivity. by exists "g1".
Defined.


(** X18. A new game forgets the game before.  When the server gives a new
    game, the board takes its identifier, empties the buffer and, once the
    effect on [gameId] has run (answers with one evaluation of verdicts per
    attempt), either shows an empty grid and an unused keyboard, or shows
    the game that the server sent, each key holding the best verdict of
    its letter in that game: no verdict of the game before is left on the
    keyboard.  When the request for a new game fails, the game on the
    board is untouched, the error is "Failed to start new game. Please
    try again." and nothing is loaded. *)
Theorem new_game_forgets_the_keyboard (M L : nat) (st : State)
    (net net' : Replies) :
  let st' := (newGame M L st net net').1 in
  (∀ data, onNewGame net = Body data →
     (∀ game, onGame net' = Body game →
        aligned (game_attempts game) (game_evaluations game)) →
     gameId st' = Some (game_id data)
     ∧ isLoading st' = false
     ∧ currentAttempt st' = JS.fill L ""
     ∧ ((attempts st' = [] ∧ evaluations st' = []
         ∧ gameStatus st' = Playing ∧ keyboardStatus st' = ∅)
        ∨ (∃ game,
             onGame net' = Body game
             ∧ attempts st' = JS.split <$> game_attempts game
             ∧ evaluations st' = game_evaluations game
             ∧ gameStatus st' = game_status game
             ∧ ∀ key,
                 best (read (keyboardStatus st') key)
                      (received key (game_attempts game)
                                (game_evaluations game)))))
  ∧ ((∀ data, onNewGame net ≠ Body data) →
     same_game st st'
     ∧ isLoading st' = false
     ∧ error st' = Some "Failed to start new game. Please try again."
     ∧ (newGame M L st net net').2 = [NewGameRequest L M]).
Proof.
  cbv zeta. unfold newGame, startNewGame. split.
  - intros data Hbody Hal. rewrite Hbody. cbv beta iota zeta.
    set (st1 := set_isLoading _ false).
    assert (Hst1 : gameId st1 = Some (game_id data)
              ∧ isLoading st1 = false ∧ currentAttempt st1 = JS.fill L ""
              ∧ attempts st1 = [] ∧ evaluations st1 = []
              ∧ gameStatus st1 = Playing ∧ keyboardStatus st1 = ∅) by done.
    destruct Hst1 as (H1 & H2 & H3 & H4 & H5 & H6 & H7).
    clearbody st1. unfold gameIdEffect. rewrite H1.
    destruct (bool_decide _); [simpl; by auto 10|].
    destruct (JS.truthy _); [|simpl; by auto 10].
    set (id := game_id data).
    destruct (onGame net') as [| |game] eqn:Hgame.
    + unfold loadGameState. rewrite Hgame. simpl. by auto 10.
    + unfold loadGameState. rewrite Hgame. simpl. by auto 10.
    + destruct (JS.truthy (game_error game)) eqn:Herr.
      * unfold loadGameState. rewrite Hgame, Herr. simpl. by auto 10.
      * destruct (loaded_keyboard st1 id net' game Hgame Herr)
          as (L1 & L2 & L3 & L4 & L5 & L6).
        -- rewrite H7. intros l v Hl. by rewrite lookup_empty in Hl.
        -- by apply Hal.
        -- rewrite H7. intros letter s Hs. unfold read in Hs.
           by rewrite lookup_empty in Hs.
        -- assert (Hrest : gameId (loadGameState st1 id net').1 = gameId st1
                     ∧ isLoading (loadGameState st1 id net').1 = false
                     ∧ currentAttempt (loadGameState st1 id net').1
                       = currentAttempt st1).
           { unfold loadGameState. rewrite Hgame, Herr. simpl.
             by destruct (mergeAll _ _ _ 0). }
           destruct Hrest as (R1 & R2 & R3).
           destruct (loadGameState st1 id net') as [st2 sent2].
           simpl in *. rewrite R1, R2, R3.
           do 3 (split; [done|]). right. exists game.
           repeat split; try done. intros key. by destruct (L6 key).
  - intros Hfail.
    destruct (onNewGame net) as [| |data] eqn:Hnew;
      [| |by destruct (Hfail data)].
    + unfold gameIdEffect. simpl.
      by rewrite bool_decide_eq_true_2.
    + unfold gameIdEffect. simpl.
      by rewrite bool_decide_eq_true_2.
Qed.

Lemma new_game_forgets_the_keyboard_witness :
  gameId (newGame 6 5 won_board
            {| onNewGame := Body {| game_id := "g2" |};
               onGame := NetworkError; onGuess := NetworkError;
               onStats := Throws |}
            no_replies).1 = Some "g2"
  ∧ same_game won_board (newGame 6 5 won_board no_replies no_replies).1.
Proof.
  split.
  - destruct (proj1 (new_game_forgets_the_keyboard 6 5 won_board
                       {| onNewGame := Body {| game_id := "g2" |};
                          onGame := NetworkError; onGuess := NetworkError;
                          onStats := Throws |}
                       no_replies) {| game_id := "g2" |} eq_refl)
      as (H & _).
    + intros game Hgame. discriminate.
    + exact H.
  - destruct (proj2 (new_game_forgets_the_keyboard 6 5 won_board no_replies
                       no_replies)) as (H & _).
    + intros data Hdata. discriminate.
    + exact H.
Defined.

(** X19. What a failed refresh does to the statistics on the board depends
    on which [getStats] the board calls.  With the one of part_001, when
    Firestore has no document (or cannot be read) and the request to the
    server fails, [fetchStats] replaces the statistics on the board by
    the all-zero ones; with the one of api.ts it leaves them as they
    were.  Either way the game on the board is untouched and the
    statistics are no longer loading. *)
Theorem failed_refresh_of_statistics (st : State) (net : Replies)
    (firestore : Api.FirestoreRead) (api : Fetch Api.StatsResponse) :
  (∀ data, firestore ≠ Api.Document data) → (∀ data, api ≠ Body data) →
  (onStats net = Api.getStats firestore api →
     stats (fetchStats st net).1 = Some Api.defaultStats)
  ∧ (onStats net = Api.getStats_http api →
     stats (fetchStats st net).1 = stats st)
  ∧ same_game st (fetchStats st net).1
  ∧ statsLoading (fetchStats st net).1 = false.
Proof.
  intros Hfire Hapi. split; [|split; [|split]].
  - intros Hs. unfold fetchStats. rewrite Hs. unfold Api.getStats.
    destruct firestore as [| |data]; [| |by destruct (Hfire data)];
      (destruct api as [| |data]; [done|done|by destruct (Hapi data)]).
  - intros Hs. unfold fetchStats. rewrite Hs. unfold Api.getStats_http.
    destruct api as [| |data]; [done|done|by destruct (Hapi data)].
  - apply fetchStats_frame.
  - done.
Qed.

Lemma failed_refresh_of_statistics_witness :
  stats (fetchStats won_board
           {| onNewGame := NetworkError; onGame := NetworkError;
              onGuess := NetworkError;
              onStats := Api.getStats Api.NoDocument HttpError |}).1
  = Some Api.defaultStats.
Proof.
  apply (proj1 (failed_refresh_of_statistics won_board
                  {| onNewGame := NetworkError; onGame := NetworkError;
                     onGuess := NetworkError;
                     onStats := Api.getStats Api.NoDocument HttpError |}
                  Api.NoDocument HttpError
                  ltac:(discriminate) ltac:(discriminate))).
  reflexivity.
Defined.

End BoardRunFacts.
